(** * Multi-user banking: priority queue, time-lock and transaction state machine

    A shallow embedding of the decision engine of the banking backend:

    - [config/index.ts]                 ([Config], [defaultConfig]),
    - [services/account.service.ts]     (module [AccountService], account creation),
    - [services/queue.service.ts]       (module [QueueService]),
    - [services/timelock.service.ts]    (module [TimelockService]),
    - [services/transaction.service.ts] (module [TransactionService]),
    - the two cancel routes of [controllers/customer.controller.ts] and
      [controllers/admin.controller.ts] (module [Controllers]).

    Conventions of the model.

    - Money.  Balances and amounts are [DECIMAL(15,2)] columns handled through
      the exact [Decimal] class; they are integers counting hundredths of a
      rupee ([rupees 100] is the literal 100 of the source).  Request
      amounts are taken on the same grid, and column overflow is not modelled.
    - Numbers.  Priorities and Redis scores are JavaScript numbers; they are
      idealised as exact rationals ([Q]), compared with [==], [<] and [<=].
    - Time.  [Date.now()] and [new Date()] read a clock in milliseconds, an
      explicit argument [now] of every operation that reads it.  Identifiers
      generated by the store are an explicit argument as well.
    - Stores.  The Prisma tables are finite maps keyed by the primary key
      (the ledger is a list in insertion order); a Redis sorted set is the
      list of its (member, score) pairs in rank order: ascending score, and
      for equal scores ascending member in byte order.
    - Effects.  Every operation is a function from the state to an [outcome]
      and a new state.  A rejected promise is [Thrown]; the writes of a
      [prisma.$transaction] callback that throws are discarded.  Redis and
      the database are assumed reachable. *)

From Stdlib Require Import ZArith QArith Qround Lia Lqa Ascii String List Sorted Floats.
From stdpp Require Import base option list gmap strings fin_maps.

Open Scope Z_scope.

(** ** Data model (Prisma schema) *)

Inductive Tier := BASIC | PREMIUM | VIP.
Inductive Urgency := NORMAL | EMI | MEDICAL.
Inductive TxStatus :=
  CREATED | LOCKED | QUEUED | RESERVED | PENDING_MANUAL | COMPLETED | FAILED | CANCELLED.
Inductive LedgerType := DEBIT | CREDIT | RESERVE | RELEASE.

#[global] Instance Tier_eq_dec : EqDecision Tier.
Proof. solve_decision. Defined.
#[global] Instance Urgency_eq_dec : EqDecision Urgency.
Proof. solve_decision. Defined.
#[global] Instance TxStatus_eq_dec : EqDecision TxStatus.
Proof. solve_decision. Defined.
#[global] Instance LedgerType_eq_dec : EqDecision LedgerType.
Proof. solve_decision. Defined.

Record Account := mkAccount {
  acc_id : string;
  accountNumber : string;
  balance : Z;
  reservedAmount : Z;
  tier : Tier;
  riskScore : Z
}.

Record Transaction := mkTransaction {
  tx_id : string;
  fromAccountId : string;
  toAccountId : string;
  amount : Z;
  urgency : Urgency;
  status : TxStatus;
  basePriority : Q;
  lockedUntil : option Z;
  reservedAt : option Z;
  completedAt : option Z;
  failureReason : option string;
  createdAt : Z
}.

Record LedgerEntry := mkLedgerEntry {
  le_accountId : string;
  le_transactionId : string;
  le_type : LedgerType;
  le_amount : Z;
  le_balanceAfter : Z;
  le_description : string
}.

(** Field updates, as the [data: { ... }] objects of the Prisma calls. *)

Definition set_balance (b : Z) (a : Account) : Account :=
  mkAccount (acc_id a) (accountNumber a) b (reservedAmount a) (tier a) (riskScore a).
Definition set_reservedAmount (r : Z) (a : Account) : Account :=
  mkAccount (acc_id a) (accountNumber a) (balance a) r (tier a) (riskScore a).

Definition set_status (s : TxStatus) (t : Transaction) : Transaction :=
  mkTransaction (tx_id t) (fromAccountId t) (toAccountId t) (amount t) (urgency t) s
    (basePriority t) (lockedUntil t) (reservedAt t) (completedAt t) (failureReason t)
    (createdAt t).
Definition set_lockedUntil (u : Z) (t : Transaction) : Transaction :=
  mkTransaction (tx_id t) (fromAccountId t) (toAccountId t) (amount t) (urgency t) (status t)
    (basePriority t) (Some u) (reservedAt t) (completedAt t) (failureReason t)
    (createdAt t).
Definition set_reservedAt (u : Z) (t : Transaction) : Transaction :=
  mkTransaction (tx_id t) (fromAccountId t) (toAccountId t) (amount t) (urgency t) (status t)
    (basePriority t) (lockedUntil t) (Some u) (completedAt t) (failureReason t)
    (createdAt t).
Definition set_completedAt (u : Z) (t : Transaction) : Transaction :=
  mkTransaction (tx_id t) (fromAccountId t) (toAccountId t) (amount t) (urgency t) (status t)
    (basePriority t) (lockedUntil t) (reservedAt t) (Some u) (failureReason t)
    (createdAt t).
Definition set_failureReason (r : string) (t : Transaction) : Transaction :=
  mkTransaction (tx_id t) (fromAccountId t) (toAccountId t) (amount t) (urgency t) (status t)
    (basePriority t) (lockedUntil t) (reservedAt t) (completedAt t) (Some r)
    (createdAt t).

(** ** Configuration ([config/index.ts]) *)

Definition rupees (n : Z) : Z := n * 100.

Record Config := mkConfig {
  timelockThreshold : Z;      (* hundredths of a rupee *)
  timelockSeconds : Z;
  agingFactor : Q;
  urgencyWeights : Urgency -> Q;
  tierWeights : Tier -> Q;
  tierReserves : Tier -> Z    (* hundredths of a rupee *)
}.

(** The values the source gives when the environment sets nothing. *)
Definition defaultConfig : Config :=
  {| timelockThreshold := rupees 10000;
     timelockSeconds := 30;
     agingFactor := 0.1;
     urgencyWeights := fun u =>
       match u with NORMAL => 1 | EMI => 3 | MEDICAL => 5 end%Q;
     tierWeights := fun t =>
       match t with BASIC => 0 | PREMIUM => 2 | VIP => 4 end%Q;
     tierReserves := fun t =>
       match t with BASIC => rupees 100 | PREMIUM => rupees 300 | VIP => rupees 500 end |}.

(** The three tables are literals of the source; only the threshold, the
    lock duration and the aging factor are read from the environment. *)
Definition envConfig (threshold seconds : Z) (aging : Q) : Config :=
  {| timelockThreshold := threshold;
     timelockSeconds := seconds;
     agingFactor := aging;
     urgencyWeights := urgencyWeights defaultConfig;
     tierWeights := tierWeights defaultConfig;
     tierReserves := tierReserves defaultConfig |}.

Definition with_timelockThreshold (threshold : Z) (cfg : Config) : Config :=
  mkConfig threshold (timelockSeconds cfg) (agingFactor cfg) (urgencyWeights cfg)
    (tierWeights cfg) (tierReserves cfg).

(** ** JavaScript numbers

    A [number] of the source is an IEEE 754 binary64 value.  Every finite
    binary64 value is a whole multiple of 2^-1074, and [Finite n] stands for
    n * 2^-1074; the sign of zero is not kept (no operation used here can
    tell +0 from -0).  Sums and products are computed exactly and then
    rounded to the nearest value of 53 significant bits, ties to the even
    one; a result of magnitude 2^1024 or more is an infinity. *)

Module Float64.

Inductive t := NaN | Infinity (negative : bool) | Finite (n : Z).

Definition pow2 (k : Z) : Z := Z.shiftl 1 k.

(** The integer nearest to [P / D], the even one of two equally near. *)
Definition rne_div (P D : Z) : Z :=
  let q := P / D in
  let r := P mod D in
  match 2 * r ?= D with
  | Lt => q
  | Gt => q + 1
  | Eq => if Z.even q then q else q + 1
  end.

(** [N / D], counted in units of 2^-1074, rounded to binary64: the last
    [k] bits are dropped when the quotient has [53 + k] bits. *)
Definition round (N D : Z) : Z :=
  let k := Z.max (Z.log2 (Z.abs N / D) - 52) 0 in
  rne_div N (D * pow2 k) * pow2 k.

Definition pack (c : Z) : t :=
  if pow2 2098 <=? Z.abs c then Infinity (c <? 0) else Finite c.

(** The number a decimal literal denotes ([parseFloat], a literal of the
    source, a value read back from the database). *)
Definition of_Q (q : Q) : t := pack (round (Qnum q * pow2 1074) (Zpos (Qden q))).

Definition of_Z (z : Z) : t := pack (round (z * pow2 1074) 1).

Definition add (x y : t) : t :=
  match x, y with
  | NaN, _ | _, NaN => NaN
  | Infinity a, Infinity b => if Bool.eqb a b then Infinity a else NaN
  | Infinity a, Finite _ | Finite _, Infinity a => Infinity a
  | Finite a, Finite b => pack (round (a + b) 1)
  end.

Definition mul (x y : t) : t :=
  match x, y with
  | NaN, _ | _, NaN => NaN
  | Infinity a, Infinity b => Infinity (xorb a b)
  | Infinity a, Finite n | Finite n, Infinity a =>
      if n =? 0 then NaN else Infinity (xorb a (n <? 0))
  | Finite a, Finite b => pack (round (a * b) (pow2 1074))
  end.


Definition ltb (x y : t) : bool :=
  match x, y with
  | NaN, _ | _, NaN => false
  | Infinity a, Infinity b => a && negb b
  | Infinity true, Finite _ => true
  | Finite _, Infinity false => true
  | Finite a, Finite b => a <? b
  | _, _ => false
  end.



Definition eqb (x y : t) : bool :=
  match x, y with
  | NaN, NaN => true
  | Infinity a, Infinity b => Bool.eqb a b
  | Finite a, Finite b => a =? b
  | _, _ => false
  end.

(** A primitive float of Rocq (the binary64 arithmetic of the processor)
    read as a number, to compare the operations above with it. *)
Definition of_float (x : float) : t :=
  match Prim2SF x with
  | S754_zero _ => Finite 0
  | S754_infinity s => Infinity s
  | S754_nan => NaN
  | S754_finite s m e => Finite ((if s then -1 else 1) * Zpos m * pow2 (e + 1074))
  end.

(** The float with mantissa [m] (below 2^53) and exponent [e]. *)
Definition to_float (m e : Z) : float :=
  let f := Z.ldexp (PrimFloat.of_uint63 (Uint63.of_Z (Z.abs m))) e in
  if m <? 0 then PrimFloat.opp f else f.

(** Sum and product agree with the primitive floats on [x] and [y]. *)
Definition agrees (x y : float) : bool :=
  eqb (add (of_float x) (of_float y)) (of_float (PrimFloat.add x y)) &&
  eqb (mul (of_float x) (of_float y)) (of_float (PrimFloat.mul x y)).

End Float64.

(** ** Redis sorted sets

    [ZADD], [ZREM], [ZRANGE], [ZRANGEBYSCORE] and [ZCARD] as the services use
    them.  The list is kept in rank order, so [ZRANGE] is a slice of it. *)

Module ZSet.

Abbreviation t := (list (string * Q)).

(** Rank order of Redis: by score, then by member for equal scores. *)
Definition entry_ltb (a b : string * Q) : bool :=
  match (a.2 ?= b.2)%Q with
  | Lt => true
  | Gt => false
  | Eq => String.ltb a.1 b.1
  end.

Definition entry_lt (a b : string * Q) : Prop :=
  (a.2 < b.2)%Q \/ ((a.2 == b.2)%Q /\ String.ltb a.1 b.1 = true).

Fixpoint place (e : string * Q) (l : t) : t :=
  match l with
  | [] => [e]
  | x :: l' => if entry_ltb e x then e :: x :: l' else x :: place e l'
  end.

Definition zrem (member : string) (l : t) : t :=
  filter (fun e : string * Q => e.1 <> member) l.

(** The reply of [ZREM]: how many members were removed. *)
Definition zrem_count (member : string) (l : t) : Z :=
  Z.of_nat (length l) - Z.of_nat (length (zrem member l)).

(** [ZADD key score member]: a member already present is moved. *)
Definition zadd (score : Q) (member : string) (l : t) : t :=
  place (member, score) (zrem member l).

Definition members (l : t) : list string := l.*1.

(** [ZRANGE key start stop]; negative indexes count from the end. *)
Definition zrange (start stop : Z) (l : t) : t :=
  let n := Z.of_nat (length l) in
  let s := if start <? 0 then Z.max 0 (n + start) else start in
  let e := if stop <? 0 then n + stop else Z.min stop (n - 1) in
  if (e <? s) || (n <=? s) then []
  else take (Z.to_nat (e - s + 1)) (drop (Z.to_nat s) l).

(** [ZRANGEBYSCORE key -inf max] *)
Definition zrangebyscore_upto (max : Q) (l : t) : t :=
  filter (fun e : string * Q => Qle_bool e.2 max = true) l.

Definition zcard (l : t) : Z := Z.of_nat (length l).

(** [a] has a lower rank ([ZRANK]) than [b] in [l]. *)
Definition ranked_before (a b : string * Q) (l : t) : Prop :=
  exists i j : nat, (i < j)%nat /\ l !! i = Some a /\ l !! j = Some b.

(** The representation invariant: strictly increasing in rank order. *)
Definition well_ranked (l : t) : Prop := StronglySorted entry_lt l.

End ZSet.

(** ** The state: database tables and Redis keys *)

Record State := mkState {
  accounts : gmap string Account;
  transactions : gmap string Transaction;
  ledger : list LedgerEntry;
  priority_queue : ZSet.t;                 (* zset:priority_queue *)
  timelock_heap : ZSet.t;                  (* zset:timelock_heap *)
  txn_data : gmap string (Q * Z)           (* hash:txn:<id> = basePriority, createdAt *)
}.

Definition with_accounts (m : gmap string Account) (s : State) : State :=
  mkState m (transactions s) (ledger s) (priority_queue s) (timelock_heap s) (txn_data s).
Definition with_transactions (m : gmap string Transaction) (s : State) : State :=
  mkState (accounts s) m (ledger s) (priority_queue s) (timelock_heap s) (txn_data s).
Definition with_ledger (l : list LedgerEntry) (s : State) : State :=
  mkState (accounts s) (transactions s) l (priority_queue s) (timelock_heap s) (txn_data s).
Definition with_priority_queue (q : ZSet.t) (s : State) : State :=
  mkState (accounts s) (transactions s) (ledger s) q (timelock_heap s) (txn_data s).
Definition with_timelock_heap (h : ZSet.t) (s : State) : State :=
  mkState (accounts s) (transactions s) (ledger s) (priority_queue s) h (txn_data s).
Definition with_txn_data (d : gmap string (Q * Z)) (s : State) : State :=
  mkState (accounts s) (transactions s) (ledger s) (priority_queue s) (timelock_heap s) d.

(** ** Promises over the state *)

Inductive outcome (A : Type) :=
| Returned (a : A)
| Thrown (msg : string).
Arguments Returned {A} a.
Arguments Thrown {A} msg.

Definition M (A : Type) : Type := State -> outcome A * State.

Definition ret {A} (a : A) : M A := fun s => (Returned a, s).
Definition throw {A} (msg : string) : M A := fun s => (Thrown msg, s).
Definition bind {A B} (c : M A) (k : A -> M B) : M B :=
  fun s => match c s with
           | (Returned a, s') => k a s'
           | (Thrown msg, s') => (Thrown msg, s')
           end.

Declare Scope promise_scope.
Delimit Scope promise_scope with promise.
Notation "x <~ c ;; k" := (bind c (fun x => k))
  (at level 20, c at level 99, k at level 200, only parsing) : promise_scope.

(** [prisma.$transaction(async tx => ...)]: when the callback throws, the
    tables go back to what they were; Redis is not part of the rollback. *)
Definition prisma_transaction {A} (body : M A) : M A :=
  fun s => match body s with
           | (Returned a, s') => (Returned a, s')
           | (Thrown msg, s') =>
               (Thrown msg,
                mkState (accounts s) (transactions s) (ledger s)
                        (priority_queue s') (timelock_heap s') (txn_data s'))
           end.

(** *** Prisma calls *)

Module Prisma.

Definition account_findUnique (id : string) : M (option Account) :=
  fun s => (Returned (accounts s !! id), s).

Definition account_findByNumber (number : string) : M (option Account) :=
  fun s => (Returned (snd <$> List.find (fun kv : string * Account =>
                                  String.eqb (accountNumber kv.2) number)
                               (map_to_list (accounts s))), s).

(** [update] rejects when no record has the id, and resolves to the
    updated record. *)
Definition account_update (id : string) (f : Account -> Account) : M Account :=
  fun s => match accounts s !! id with
           | Some a => (Returned (f a), with_accounts (<[id := f a]> (accounts s)) s)
           | None => (Thrown "Record to update not found", s)
           end.

(** [create] with the primary key the store generates for the row. *)
Definition account_create (a : Account) : M Account :=
  fun s => (Returned a, with_accounts (<[acc_id a := a]> (accounts s)) s).

Definition transaction_findUnique (id : string) : M (option Transaction) :=
  fun s => (Returned (transactions s !! id), s).

Definition transaction_update (id : string) (f : Transaction -> Transaction) : M Transaction :=
  fun s => match transactions s !! id with
           | Some t => (Returned (f t), with_transactions (<[id := f t]> (transactions s)) s)
           | None => (Thrown "Record to update not found", s)
           end.

Definition transaction_create (t : Transaction) : M Transaction :=
  fun s => (Returned t, with_transactions (<[tx_id t := t]> (transactions s)) s).

(** The ledger rows are written for accounts and transactions that the
    caller has just read or updated, so the foreign keys hold. *)
Definition ledgerEntry_create (e : LedgerEntry) : M unit :=
  fun s => (Returned tt, with_ledger (ledger s ++ [e]) s).

Definition ledgerEntry_createMany (es : list LedgerEntry) : M unit :=
  fun s => (Returned tt, with_ledger (ledger s ++ es) s).

End Prisma.

Open Scope promise_scope.

(** ** [services/account.service.ts] *)

Module AccountService.

(** [newId] is the primary key the store generates, [accountNumber] the
    number drawn until it is unused.  [initialDeposit || 1000] and
    [tier || 'BASIC'] fall back on a missing (or zero) value; the columns
    [reservedAmount] and [riskScore] start at their default 0. *)
Definition createAccount (newId accountNumber : string) (tier : option Tier)
    (initialDeposit : option Z) : M Account :=
  let initialBalance :=
    match initialDeposit with
    | Some d => if d =? 0 then rupees 1000 else d
    | None => rupees 1000
    end in
  Prisma.account_create
    (mkAccount newId accountNumber initialBalance 0 (default BASIC tier) 0).

(** [balance - reservedAmount - tierReserve] of the account, or a rejection
    when there is no such account. *)
Definition getAvailableBalance (cfg : Config) (accountId : string) : M Z :=
  account <~ Prisma.account_findUnique accountId ;;
  match account with
  | None => throw "Account not found"
  | Some account =>
      let tierReserve := tierReserves cfg (tier account) in
      ret (balance account - reservedAmount account - tierReserve)
  end.

Definition set_tier (t : Tier) (a : Account) : Account :=
  mkAccount (acc_id a) (accountNumber a) (balance a) (reservedAmount a) t (riskScore a).
Definition set_riskScore (r : Z) (a : Account) : Account :=
  mkAccount (acc_id a) (accountNumber a) (balance a) (reservedAmount a) (tier a) r.

Definition updateTier (accountId : string) (tier : Tier) : M Account :=
  Prisma.account_update accountId (set_tier tier).

Definition updateRiskScore (accountId : string) (riskScore : Z) : M Account :=
  if (riskScore <? 0) || (10 <? riskScore) then
    throw "Risk score must be between 0 and 10"
  else Prisma.account_update accountId (set_riskScore riskScore).

End AccountService.

(** ** [services/queue.service.ts] *)

Module QueueService.

Definition calculateBasePriority (cfg : Config) (u : Urgency) (t : Tier) (riskScore : Z) : Q :=
  let urgencyWeight := urgencyWeights cfg u in
  let tierWeight := tierWeights cfg t in
  (urgencyWeight * 2.0 + tierWeight * 1.5 - inject_Z riskScore * 0.5)%Q.

(** [Math.floor((Date.now() - createdAt.getTime()) / 1000)] *)
Definition waitSeconds (createdAt now : Z) : Z := (now - createdAt) / 1000.

Definition calculateEffectivePriority (cfg : Config) (basePriority : Q)
    (createdAt now : Z) : Q :=
  (basePriority + inject_Z (waitSeconds createdAt now) * agingFactor cfg)%Q.

(** The same expression as JavaScript evaluates it: the base priority, the
    whole seconds waited and [config.agingFactor] are binary64 numbers, and
    the product and the sum are each rounded.  (The difference of the two
    clock readings and its quotient by 1000 are exact as long as the wait
    is below 2^53 ms.)  [calculateEffectivePriority] above is its value
    without the two roundings. *)
Definition calculateEffectivePriority64 (cfg : Config) (basePriority : Q)
    (createdAt now : Z) : Float64.t :=
  let waitSeconds := Float64.of_Z (waitSeconds createdAt now) in
  Float64.add (Float64.of_Q basePriority)
    (Float64.mul waitSeconds (Float64.of_Q (agingFactor cfg))).

(** The score is the negated priority: the highest priority has the
    lowest score and so the first rank. *)
Definition enqueue (cfg : Config) (transactionId : string) (basePriority : Q)
    (createdAt now : Z) : M unit :=
  fun s =>
    let effectivePriority := calculateEffectivePriority cfg basePriority createdAt now in
    let score := (- effectivePriority)%Q in
    (Returned tt,
     with_txn_data (<[transactionId := (basePriority, createdAt)]> (txn_data s))
       (with_priority_queue (ZSet.zadd score transactionId (priority_queue s)) s)).

Definition dequeue (transactionId : string) : M unit :=
  fun s =>
    (Returned tt,
     with_txn_data (delete transactionId (txn_data s))
       (with_priority_queue (ZSet.zrem transactionId (priority_queue s)) s)).

Definition getTop (count : Z) : M (list (string * Q)) :=
  fun s => (Returned (ZSet.zrange 0 (count - 1) (priority_queue s)), s).

Definition popTop : M (option string) :=
  fun s => (Returned (head (ZSet.members (ZSet.zrange 0 0 (priority_queue s)))), s).

(** One step of the loop of [updateAllPriorities]; [now] is the clock
    when the member is reached. *)
Definition updateOne (cfg : Config) (now : string -> Z) (txId : string)
    (acc : ZSet.t * Z) (data : gmap string (Q * Z)) : ZSet.t * Z :=
  match data !! txId with
  | Some (basePriority, createdAt) =>
      let effectivePriority :=
        calculateEffectivePriority cfg basePriority createdAt (now txId) in
      (ZSet.zadd (- effectivePriority)%Q txId acc.1, acc.2 + 1)
  | None => acc
  end.

Definition updateAllPriorities (cfg : Config) (now : string -> Z) : M Z :=
  fun s =>
    let members := ZSet.members (ZSet.zrange 0 (-1) (priority_queue s)) in
    let r := fold_left (fun acc txId => updateOne cfg now txId acc (txn_data s))
                       members (priority_queue s, 0) in
    (Returned r.2, with_priority_queue r.1 s).

Definition getQueueSize : M Z :=
  fun s => (Returned (ZSet.zcard (priority_queue s)), s).

(** [getStats]: the two sizes and the first five entries with their score
    turned back into a priority. *)
Record Stats := mkStats {
  queueSize : Z;
  timelockSize : Z;
  topItems : list (string * Q)     (* id, effectivePriority *)
}.

Definition getStats : M Stats :=
  sizes <~ (fun s => (Returned (ZSet.zcard (priority_queue s), ZSet.zcard (timelock_heap s)), s)) ;;
  topRaw <~ getTop 5 ;;
  let topItems := map (fun item : string * Q => (item.1, (- item.2)%Q)) topRaw in
  ret (mkStats sizes.1 sizes.2 topItems).

End QueueService.

(** ** The advisory lock of [queue.service.ts]

    [SET lock:txn:<id> <Date.now()> PX ttlMs NX] and [DEL lock:txn:<id>].
    The lock keys are a store of their own: for each transaction id the
    value written and the time the key expires.  A key that has expired is
    absent for Redis; the clock of Redis and [Date.now()] are one clock. *)

Module TxnLock.

Abbreviation store := (gmap string (Z * Z)).




End TxnLock.

(** ** [services/timelock.service.ts] *)

Module TimelockService.

Definition lockTransaction (cfg : Config) (transactionId : string) (now : Z) : M Z :=
  let durationSeconds := timelockSeconds cfg in
  let unlockTime := now + durationSeconds * 1000 in
  let score := unlockTime / 1000 in
  _ <~ (fun s => (Returned tt,
          with_timelock_heap (ZSet.zadd (inject_Z score) transactionId (timelock_heap s)) s)) ;;
  _ <~ Prisma.transaction_update transactionId
         (fun t => set_lockedUntil unlockTime (set_status LOCKED t)) ;;
  ret unlockTime.

Definition getUnlockedTransactions (now : Z) : M (list string) :=
  fun s =>
    let nowSeconds := now / 1000 in
    (Returned (ZSet.members (ZSet.zrangebyscore_upto (inject_Z nowSeconds) (timelock_heap s))), s).

Definition moveToQueue (cfg : Config) (transactionId : string) (now : Z) : M unit :=
  transaction <~ Prisma.transaction_findUnique transactionId ;;
  match transaction with
  | None => ret tt
  | Some transaction =>
      _ <~ (fun s => (Returned tt,
              with_timelock_heap (ZSet.zrem transactionId (timelock_heap s)) s)) ;;
      _ <~ Prisma.transaction_update transactionId (set_status PENDING_MANUAL) ;;
      QueueService.enqueue cfg transactionId (basePriority transaction)
        (createdAt transaction) now
  end.

(** The loop of [processUnlocked]; the sweep is taken at one clock
    reading. *)
Fixpoint moveAll (cfg : Config) (now : Z) (unlocked : list string) : M unit :=
  match unlocked with
  | [] => ret tt
  | txId :: rest => _ <~ moveToQueue cfg txId now ;; moveAll cfg now rest
  end.

Definition processUnlocked (cfg : Config) (now : Z) : M Z :=
  unlocked <~ getUnlockedTransactions now ;;
  _ <~ moveAll cfg now unlocked ;;
  ret (Z.of_nat (length unlocked)).

Definition getHeapSize : M Z :=
  fun s => (Returned (ZSet.zcard (timelock_heap s)), s).

Definition cancelLocked (transactionId : string) : M bool :=
  removed <~ (fun s => (Returned (ZSet.zrem_count transactionId (timelock_heap s)),
                with_timelock_heap (ZSet.zrem transactionId (timelock_heap s)) s)) ;;
  if 0 <? removed then
    _ <~ Prisma.transaction_update transactionId (set_status CANCELLED) ;;
    ret true
  else ret false.

(** [getLockedTransactions]: every held id with [score * 1000] as its
    unlock time.  The scores of the time-lock set are whole numbers (see
    [lockTransaction]), so [parseInt] of a score is its integer part. *)
Definition getLockedTransactions : M (list (string * Z)) :=
  fun s =>
    (Returned (map (fun item : string * Q => (item.1, Qfloor item.2 * 1000))
                   (ZSet.zrange 0 (-1) (timelock_heap s))), s).

End TimelockService.

(** ** [services/transaction.service.ts] *)

Module TransactionService.

(** [balance - reservedAmount - tierReserve], the left side of both
    balance checks.  The fallback of [config.tierReserves[tier] || 0] is
    never taken: the table is total and none of its entries is zero. *)
Definition availableAfterReserve (cfg : Config) (a : Account) : Z :=
  let availableBalance := balance a - reservedAmount a in
  let tierReserve := tierReserves cfg (tier a) in
  availableBalance - tierReserve.

Definition isPendingReservation (st : TxStatus) : bool :=
  match st with QUEUED | PENDING_MANUAL => true | _ => false end.

(** [newId] and [created] are the primary key and the creation time the
    store gives the new row; [now] is the clock at admission. *)
Definition initiateTransfer (cfg : Config) (fromAccountId toAccountNumber : string)
    (amount : Z) (urgency : Urgency) (newId : string) (created now : Z) : M Transaction :=
  fromAccount <~ Prisma.account_findUnique fromAccountId ;;
  match fromAccount with
  | None => throw "Sender account not found"
  | Some fromAccount =>
    toAccount <~ Prisma.account_findByNumber toAccountNumber ;;
    match toAccount with
    | None => throw "Recipient account not found"
    | Some toAccount =>
      if String.eqb (acc_id fromAccount) (acc_id toAccount) then
        throw "Cannot transfer to same account"
      else if availableAfterReserve cfg fromAccount <? amount then
        (* the message of the source also prints the tier reserve *)
        throw "Insufficient balance. Minimum balance must be maintained."
      else
        let basePriority :=
          QueueService.calculateBasePriority cfg urgency (tier fromAccount)
            (riskScore fromAccount) in
        transaction <~ Prisma.transaction_create
          (mkTransaction newId (acc_id fromAccount) (acc_id toAccount) amount urgency
             CREATED basePriority None None None None created) ;;
        _ <~ (if timelockThreshold cfg <? amount then
                _ <~ TimelockService.lockTransaction cfg (tx_id transaction) now ;; ret tt
              else
                _ <~ Prisma.transaction_update (tx_id transaction) (set_status QUEUED) ;;
                QueueService.enqueue cfg (tx_id transaction) basePriority
                  (createdAt transaction) now) ;;
        ret transaction
    end
  end.

Definition reserveFunds (transactionId : string) (cfg : Config) (now : Z) : M bool :=
  prisma_transaction (
    transaction <~ Prisma.transaction_findUnique transactionId ;;
    match transaction with
    | None => ret false
    | Some transaction =>
      if negb (isPendingReservation (status transaction)) then ret false
      else
        fromAccount <~ Prisma.account_findUnique (fromAccountId transaction) ;;
        match fromAccount with
        | None => ret false
        | Some fromAccount =>
          if availableAfterReserve cfg fromAccount <? amount transaction then
            _ <~ Prisma.transaction_update transactionId
                   (fun t => set_failureReason
                               "Insufficient balance (Minimum balance requirement)"
                               (set_status FAILED t)) ;;
            ret false
          else
            _ <~ Prisma.account_update (acc_id fromAccount)
                   (fun a => set_reservedAmount (reservedAmount a + amount transaction) a) ;;
            _ <~ Prisma.ledgerEntry_create
                   (mkLedgerEntry (acc_id fromAccount) transactionId RESERVE
                      (amount transaction) (balance fromAccount)
                      (String.append "Reserved for transfer to " (toAccountId transaction))) ;;
            _ <~ Prisma.transaction_update transactionId
                   (fun t => set_reservedAt now (set_status RESERVED t)) ;;
            ret true
        end
    end).

Definition finalize (transactionId : string) (now : Z) : M bool :=
  prisma_transaction (
    transaction <~ Prisma.transaction_findUnique transactionId ;;
    match transaction with
    | None => ret false
    | Some transaction =>
      if negb (bool_decide (status transaction = RESERVED)) then ret false
      else
        fromAccount <~ Prisma.account_update (fromAccountId transaction)
          (fun a => set_reservedAmount (reservedAmount a - amount transaction)
                      (set_balance (balance a - amount transaction) a)) ;;
        toAccount <~ Prisma.account_update (toAccountId transaction)
          (fun a => set_balance (balance a + amount transaction) a) ;;
        _ <~ Prisma.ledgerEntry_createMany
               [ mkLedgerEntry (fromAccountId transaction) transactionId DEBIT
                   (amount transaction) (balance fromAccount)
                   (String.append "Transfer to " (toAccountId transaction));
                 mkLedgerEntry (toAccountId transaction) transactionId CREDIT
                   (amount transaction) (balance toAccount)
                   (String.append "Transfer from " (fromAccountId transaction)) ] ;;
        _ <~ Prisma.transaction_update transactionId
               (fun t => set_completedAt now (set_status COMPLETED t)) ;;
        _ <~ QueueService.dequeue transactionId ;;
        ret true
    end).

Definition rollback (transactionId : string) (reason : string) : M bool :=
  prisma_transaction (
    transaction <~ Prisma.transaction_findUnique transactionId ;;
    match transaction with
    | None => ret false
    | Some transaction =>
      _ <~ (if bool_decide (status transaction = RESERVED) then
              fromAccount <~ Prisma.account_update (fromAccountId transaction)
                (fun a => set_reservedAmount (reservedAmount a - amount transaction) a) ;;
              Prisma.ledgerEntry_create
                (mkLedgerEntry (fromAccountId transaction) transactionId RELEASE
                   (amount transaction) (balance fromAccount)
                   (String.append "Released: " reason))
            else ret tt) ;;
      _ <~ Prisma.transaction_update transactionId
             (fun t => set_failureReason reason (set_status CANCELLED t)) ;;
      _ <~ QueueService.dequeue transactionId ;;
      ret true
    end).

Definition getById (transactionId : string) : M (option Transaction) :=
  Prisma.transaction_findUnique transactionId.

Definition completeManual (transactionId : string) (cfg : Config) (now : Z) : M bool :=
  transaction <~ Prisma.transaction_findUnique transactionId ;;
  match transaction with
  | None => ret false
  | Some transaction =>
    if isPendingReservation (status transaction) then
      reserved <~ reserveFunds transactionId cfg now ;;
      if negb reserved then ret false else finalize transactionId now
    else finalize transactionId now
  end.

(** [processNext] and the query it starts with *)

(** [status: { in: ['QUEUED', 'PENDING_MANUAL', 'RESERVED'] }] *)
Definition isPending (st : TxStatus) : bool :=
  match st with QUEUED | PENDING_MANUAL | RESERVED => true | _ => false end.

(** [orderBy: [{ basePriority: 'desc' }, { createdAt: 'asc' }]]: the row [a]
    sorts strictly before the row [b]. *)
Definition sortsBefore (a b : Transaction) : bool :=
  negb (Qle_bool (basePriority a) (basePriority b)) ||
  (Qeq_bool (basePriority a) (basePriority b) && (createdAt a <? createdAt b)).

Definition pickFirst (best : option Transaction) (t : Transaction) : option Transaction :=
  match best with
  | None => Some t
  | Some b => if sortsBefore t b then Some t else Some b
  end.

(** The [findFirst] of [processNext].  Among rows equal in both sort keys
    the store is free to return any; here it is the first in the order of
    the table. *)
Definition findFirstPending : M (option Transaction) :=
  fun s =>
    (Returned
       (fold_left pickFirst
          (List.filter (fun t => isPending (status t))
             (List.map snd (map_to_list (transactions s))))
          None),
     s).

Record NextResult := mkNextResult {
  success : bool;
  transactionId : option string
}.

Definition processNext (cfg : Config) (now : Z) : M NextResult :=
  nextTx <~ findFirstPending ;;
  match nextTx with
  | None => ret (mkNextResult false None)
  | Some nextTx =>
      completed <~ completeManual (tx_id nextTx) cfg now ;;
      ret (mkNextResult completed (Some (tx_id nextTx)))
  end.

End TransactionService.

(** ** The cancel routes of the controllers *)

Module Controllers.

(** [res.status(code).json(...)], with the message it carries. *)
Inductive Response := Json (code : Z) (message : string).

(** The [try { ... } catch (error) { res.status(500) ... }] of a route. *)
Definition route (body : M Response) : State -> Response * State :=
  fun s => match body s with
           | (Returned r, s') => (r, s')
           | (Thrown msg, s') => (Json 500 msg, s')
           end.

(** POST /api/customer/transactions/:id/cancel, for the authenticated
    customer [userId]. *)
Definition customerCancel (userId id : string) : State -> Response * State :=
  route (
    transaction <~ TransactionService.getById id ;;
    match transaction with
    | None => ret (Json 404 "Transaction not found")
    | Some transaction =>
      if negb (String.eqb (fromAccountId transaction) userId) then
        ret (Json 403 "You can only cancel your own transactions")
      else if negb (bool_decide (status transaction = LOCKED)) then
        ret (Json 400 "Only time-locked transactions can be cancelled")
      else
        _ <~ TimelockService.cancelLocked id ;;
        _ <~ Prisma.account_update (fromAccountId transaction)
               (fun a => set_reservedAmount (reservedAmount a - amount transaction) a) ;;
        ret (Json 200 "Time-locked transaction cancelled successfully")
    end).

(** [reason || 'Cancelled by admin'] *)
Definition reasonOrDefault (reason : option string) : string :=
  match reason with
  | Some r => if String.eqb r "" then "Cancelled by admin" else r
  | None => "Cancelled by admin"
  end.

(** POST /api/admin/transactions/:id/cancel *)
Definition adminCancel (id : string) (reason : option string) : State -> Response * State :=
  route (
    success <~ TransactionService.rollback id (reasonOrDefault reason) ;;
    if negb success then ret (Json 400 "Failed to cancel transaction")
    else ret (Json 200 "Transaction cancelled")).

End Controllers.

(** ** Runs of the system

    A run starts with some accounts, no transaction and empty Redis keys, and
    proceeds by the operations of the services and the two cancel routes, in
    any order and with any arguments.  ([processNext] changes the state as
    [completeManual] does on the transaction it selects.) *)

Definition initialState (accs : gmap string Account) : State :=
  mkState accs ∅ [] [] [] ∅.

Inductive step (cfg : Config) (s : State) : State -> Prop :=
| step_createAccount (newId accountNumber : string) (tier : option Tier)
    (initialDeposit : option Z) :
    accounts s !! newId = None ->
    step cfg s (AccountService.createAccount newId accountNumber tier initialDeposit s).2
| step_initiateTransfer (from toNumber : string) (amt : Z) (u : Urgency)
    (newId : string) (created now : Z) :
    transactions s !! newId = None ->
    step cfg s (TransactionService.initiateTransfer cfg from toNumber amt u newId created now s).2
| step_reserveFunds (id : string) (now : Z) :
    step cfg s (TransactionService.reserveFunds id cfg now s).2
| step_finalize (id : string) (now : Z) :
    step cfg s (TransactionService.finalize id now s).2
| step_rollback (id reason : string) :
    step cfg s (TransactionService.rollback id reason s).2
| step_completeManual (id : string) (now : Z) :
    step cfg s (TransactionService.completeManual id cfg now s).2
| step_processUnlocked (now : Z) :
    step cfg s (TimelockService.processUnlocked cfg now s).2
| step_updateAllPriorities (now : string -> Z) :
    step cfg s (QueueService.updateAllPriorities cfg now s).2
| step_customerCancel (userId id : string) :
    step cfg s (Controllers.customerCancel userId id s).2
| step_adminCancel (id : string) (reason : option string) :
    step cfg s (Controllers.adminCancel id reason s).2.

Inductive reachable (cfg : Config) (accs : gmap string Account) : State -> Prop :=
| reachable_init : reachable cfg accs (initialState accs)
| reachable_step s s' : reachable cfg accs s -> step cfg s s' -> reachable cfg accs s'.

(** [c] keeps the property [P] of the state, whatever it returns. *)
Definition preserves {A} (P : State -> Prop) (c : M A) : Prop :=
  forall s, P s -> P (c s).2.

(** Every account row is stored under its own primary key. *)
Definition accounts_keyed (accs : gmap string Account) : Prop :=
  forall k a, accs !! k = Some a -> acc_id a = k.

(** The shape of the tables: rows under their keys, and every transaction
    between two different accounts that exist (the foreign keys). *)
Definition db_ok (s : State) : Prop :=
  accounts_keyed (accounts s) /\
  forall id t, transactions s !! id = Some t ->
    fromAccountId t <> toAccountId t /\
    is_Some (accounts s !! fromAccountId t) /\
    is_Some (accounts s !! toAccountId t).

(** A rolled-back [prisma.$transaction] keeps [P]: the tables of the state
    before with the Redis keys of the state after. *)
Definition rollback_closed (P : State -> Prop) : Prop :=
  forall s s', P s -> P s' ->
    P (mkState (accounts s) (transactions s) (ledger s)
         (priority_queue s') (timelock_heap s') (txn_data s')).

(** The priority queue of the state is in rank order. *)
Definition queue_ranked (s : State) : Prop := ZSet.well_ranked (priority_queue s).

(** The Redis keys agree: no id twice in the priority queue or in the
    time-lock set, and the ids of the priority queue are exactly those with
    cached metadata. *)
Definition redis_keys_ok (s : State) : Prop :=
  NoDup (ZSet.members (priority_queue s)) /\
  NoDup (ZSet.members (timelock_heap s)) /\
  forall id, In id (ZSet.members (priority_queue s)) <-> is_Some (txn_data s !! id).

(** Every id held in the time-lock set has a transaction row. *)
Definition held_have_rows (s : State) : Prop :=
  forall id, In id (ZSet.members (timelock_heap s)) -> is_Some (transactions s !! id).

(** The fields of a transaction that no operation writes after creation. *)
Definition same_transfer (t t' : Transaction) : Prop :=
  tx_id t' = tx_id t /\ fromAccountId t' = fromAccountId t /\
  toAccountId t' = toAccountId t /\ amount t' = amount t /\
  urgency t' = urgency t /\ basePriority t' = basePriority t /\
  createdAt t' = createdAt t.

(** The sum of the balances of all accounts. *)
Definition totalBalance (accs : gmap string Account) : Z :=
  map_fold (fun _ a acc => balance a + acc) 0 accs.

(** The balances of the state sum to [c]. *)
Definition total_is (c : Z) (s : State) : Prop := totalBalance (accounts s) = c.

(** The state still has the row [id], with the fixed fields of [t]. *)
Definition keeps_row (id : string) (t : Transaction) (s : State) : Prop :=
  exists t', transactions s !! id = Some t' /\ same_transfer t t'.

(** The ledger of the state starts with the entries [l0]. *)
Definition ledger_extends (l0 : list LedgerEntry) (s : State) : Prop :=
  exists es, ledger s = l0 ++ es.

(** ** Concrete runs used as examples *)

Module Scenario.

Definition accX : Account := mkAccount "X" "1001" (rupees 20000) 0 BASIC 0.
Definition accY : Account := mkAccount "Y" "1002" (rupees 1000) 0 PREMIUM 2.
Definition bank : gmap string Account := <["X" := accX]> (<["Y" := accY]> ∅).

(** Two transfers of 500 from X to Y, half a second apart; the store
    gives the first the id b7e1 and the second the id a3c9. *)
Definition afterFirst : State :=
  (TransactionService.initiateTransfer defaultConfig "X" "1002" (rupees 500) NORMAL
     "b7e1" 0 0 (initialState bank)).2.
Definition afterSecond : State :=
  (TransactionService.initiateTransfer defaultConfig "X" "1002" (rupees 500) NORMAL
     "a3c9" 500 500 afterFirst).2.

(** The first transfer as it is queued, reserved and completed. *)
Definition txFirst : Transaction :=
  mkTransaction "b7e1" "X" "Y" (rupees 500) NORMAL QUEUED 2.000 None None None None 0.
Definition reservedFirst : State :=
  (TransactionService.reserveFunds "b7e1" defaultConfig 1000 afterFirst).2.
Definition completedFirst : State :=
  (TransactionService.finalize "b7e1" 2000 reservedFirst).2.

(** Two transfers of 9960 from X, which holds 20000 and must keep 100:
    each passes the check at creation, only one can be reserved. *)
Definition txLarge : Transaction :=
  mkTransaction "c001" "X" "Y" (rupees 9960) NORMAL QUEUED 2.000 None None None None 0.
Definition twoLarge : State :=
  (TransactionService.initiateTransfer defaultConfig "X" "1002" (rupees 9960) NORMAL
     "c002" 10 10
     (TransactionService.initiateTransfer defaultConfig "X" "1002" (rupees 9960) NORMAL
        "c001" 0 0 (initialState bank)).2).2.
Definition oneLargeReserved : State :=
  (TransactionService.reserveFunds "c002" defaultConfig 1000 twoLarge).2.

(** A transfer of 15000, above the threshold of 10000. *)
Definition afterLocked : State :=
  (TransactionService.initiateTransfer defaultConfig "X" "1002" (rupees 15000) NORMAL
     "d4f0" 0 0 (initialState bank)).2.
Definition txLockedCreated : Transaction :=
  mkTransaction "d4f0" "X" "Y" (rupees 15000) NORMAL CREATED 2.000 None None None None 0.
Definition txLocked : Transaction :=
  mkTransaction "d4f0" "X" "Y" (rupees 15000) NORMAL LOCKED 2.000 (Some 30000)
    None None None 0.

(** A transfer of exactly the threshold, as it is created. *)
Definition txThreshold : Transaction :=
  mkTransaction "e5a1" "X" "Y" (rupees 10000) EMI CREATED 6.000 None None None None 0.
Definition afterThreshold : State :=
  (TransactionService.initiateTransfer defaultConfig "X" "1002" (rupees 10000) EMI
     "e5a1" 0 0 (initialState bank)).2.

(** The aging sweep then re-ranks both at the same clock reading, 900. *)
Definition afterAging : State :=
  (QueueService.updateAllPriorities defaultConfig (fun _ => 900) afterSecond).2.

End Scenario.

(** * Specification-side definitions *)

(** The weight tables and the formula in the words of the design document,
    to be compared with [QueueService.calculateBasePriority]. *)
Module Spec.

Definition urgencyWeight (u : Urgency) : Q :=
  match u with NORMAL => 1 | EMI => 3 | MEDICAL => 5 end%Q.

Definition tierWeight (t : Tier) : Q :=
  match t with BASIC => 0 | PREMIUM => 2 | VIP => 4 end%Q.

Definition basePriority (u : Urgency) (t : Tier) (risk : Z) : Q :=
  (urgencyWeight u * 2.0 + tierWeight t * 1.5 - inject_Z risk * 0.5)%Q.

(** "Ties are broken by ascending creation time": of two members of the
    priority queue with equal scores, the one created earlier (by the
    creation times kept with the queue) has the lower rank. *)
Definition ties_by_creation_time (s : State) : Prop :=
  forall (a b : string * Q) (pa pb : Q) (ca cb : Z),
    In a (priority_queue s) -> In b (priority_queue s) ->
    (a.2 == b.2)%Q ->
    txn_data s !! a.1 = Some (pa, ca) -> txn_data s !! b.1 = Some (pb, cb) ->
    ca < cb ->
    ZSet.ranked_before a b (priority_queue s).



End Spec.

(** * Rounding to binary64 *)

Section Rounding.

Import Float64.



Lemma rne_div_cases P D :
  0 < D ->
  exists q r, P = D * q + r /\ 0 <= r < D /\
    ((2 * r < D /\ rne_div P D = q) \/
     (D < 2 * r /\ rne_div P D = q + 1) \/
     (2 * r = D /\ (rne_div P D = q \/ rne_div P D = q + 1))).
Proof.
  intros HD. exists (P / D), (P mod D).
  split; [apply Z.div_mod; lia |]. split; [apply Z.mod_pos_bound; lia |].
  unfold rne_div. destruct (Z.compare_spec (2 * (P mod D)) D) as [E | E | E].
  - right. right. split; [exact E |]. destruct (Z.even (P / D)); auto.
  - left. auto.
  - right. left. auto.
Qed.





















End Rounding.

(** [Float64] against the primitive floats of Rocq, which are the binary64
    arithmetic of the processor: sums and products agree on operands taken
    across the range, from the smallest subnormal to the overflow to
    infinity, with ties and carries in the last bit, and decimal literals
    are read alike. *)
Lemma Float64_agrees_with_primitive_floats :
  forallb (fun p : (Z * Z) * (Z * Z) =>
             Float64.agrees (Float64.to_float p.1.1 p.1.2) (Float64.to_float p.2.1 p.2.2))
    [ ((1, 1), (43, 0));
      ((3602879701896397, -55), (43, 0));
      ((3602879701896397, -55), (38, 0));
      ((5, -1), (8556839292003942, -51));
      ((2, 0), (4841369599423283, -50));
      ((2, 0), (6490371073168535, -109));
      ((9007199254740991, 0), (1, 0));
      ((9007199254740991, 0), (1, -1));
      ((9007199254740991, 1), (1, 0));
      ((9007199254740991, 1), (3, 0));
      ((-9007199254740991, 1), (1, 0));
      ((-9007199254740993, 0), (7, -3));
      ((6004799503160661, -54), (-6004799503160661, -54));
      ((1, -1074), (1, -1074));
      ((1, -1074), (1, -1));
      ((3, -1074), (1, -1));
      ((3, -1074), (-1, -1));
      ((4503599627370497, -1074), (4503599627370495, -1074));
      ((9007199254740991, 971), (1, 918));
      ((9007199254740991, 971), (1, 917));
      ((9007199254740991, 971), (9007199254740991, 971));
      ((-9007199254740991, 971), (9007199254740991, 971));
      ((-9007199254740991, 971), (-9007199254740991, 970));
      ((4503599627370496, 500), (4503599627370496, 471));
      ((4503599627370496, -600), (4503599627370497, -600));
      ((7074237752028440, -313), (-5578008400626213, -844));
      ((0, 0), (9007199254740991, 971));
      ((0, 0), (-1, -1074)) ] = true /\
  Float64.of_Q 0.1 = Float64.of_float (PrimFloat.div 1 10) /\
  Float64.of_Q 1e-17
    = Float64.of_float (PrimFloat.div 1 (PrimFloat.of_uint63 (Uint63.of_Z 100000000000000000))) /\
  Float64.of_Q 6.3 = Float64.of_float (PrimFloat.div 63 10) /\
  Float64.of_Z 86400 = Float64.of_float 86400.
Proof.
  split; [vm_compute; reflexivity |]. split; [vm_compute; reflexivity |].
  split; [vm_compute; reflexivity |]. split; vm_compute; reflexivity.
Qed.

(** * The priority calculator *)

Section PriorityCalculator.

Import QueueService.



Lemma inject_Z_le (a b : Z) : a <= b -> (inject_Z a <= inject_Z b)%Q.
Proof. intros H. now rewrite <- Zle_Qle. Qed.

Lemma inject_Z_lt (a b : Z) : a < b -> (inject_Z a < inject_Z b)%Q.
Proof. intros H. now rewrite <- Zlt_Qlt. Qed.

(** C9.  With the weight tables of the configuration, the base priority
    is urgencyWeight * 2.0 + tierWeight * 1.5 - risk * 0.5 for the tables
    Normal 1, EMI 3, Medical 5 and Basic 0, Premium 2, VIP 4, whatever the
    environment sets; it grows (weakly and strictly) with the urgency weight
    and with the tier weight, and it shrinks as the risk grows. *)
Theorem calculateBasePriority_formula :
  forall (threshold seconds : Z) (aging : Q) (u u' : Urgency) (t t' : Tier) (r r' : Z),
    let cfg := envConfig threshold seconds aging in
    (calculateBasePriority cfg u t r == Spec.basePriority u t r)%Q /\
    ((Spec.urgencyWeight u <= Spec.urgencyWeight u')%Q ->
     (calculateBasePriority cfg u t r <= calculateBasePriority cfg u' t r)%Q) /\
    ((Spec.urgencyWeight u < Spec.urgencyWeight u')%Q ->
     (calculateBasePriority cfg u t r < calculateBasePriority cfg u' t r)%Q) /\
    ((Spec.tierWeight t <= Spec.tierWeight t')%Q ->
     (calculateBasePriority cfg u t r <= calculateBasePriority cfg u t' r)%Q) /\
    ((Spec.tierWeight t < Spec.tierWeight t')%Q ->
     (calculateBasePriority cfg u t r < calculateBasePriority cfg u t' r)%Q) /\
    (r <= r' ->
     (calculateBasePriority cfg u t r' <= calculateBasePriority cfg u t r)%Q) /\
    (r < r' ->
     (calculateBasePriority cfg u t r' < calculateBasePriority cfg u t r)%Q).
Proof.
  intros threshold seconds aging u u' t t' r r' cfg.
  unfold calculateBasePriority, Spec.basePriority, cfg, envConfig.
  cbn [urgencyWeights tierWeights].
  change (urgencyWeights defaultConfig) with Spec.urgencyWeight.
  change (tierWeights defaultConfig) with Spec.tierWeight.
  set (w := inject_Z r). set (w' := inject_Z r').
  split; [lra |].
  split; [intros H; lra |].
  split; [intros H; lra |].
  split; [intros H; lra |].
  split; [intros H; lra |].
  split; intros H.
  - apply inject_Z_le in H. fold w w' in H. lra.
  - apply inject_Z_lt in H. fold w w' in H. lra.
Qed.

(** C9, on values: Medical from a VIP account with risk 2 against Normal
    from a Basic account with risk 10. *)
Lemma calculateBasePriority_formula_witness :
  (calculateBasePriority (envConfig (rupees 10000) 30 0.1) MEDICAL VIP 2 == 15)%Q /\
  (calculateBasePriority (envConfig (rupees 10000) 30 0.1) NORMAL BASIC 10
   < calculateBasePriority (envConfig (rupees 10000) 30 0.1) MEDICAL BASIC 10)%Q.
Proof.
  split.
  - eapply Qeq_trans.
    + apply (calculateBasePriority_formula (rupees 10000) 30 0.1
               MEDICAL MEDICAL VIP VIP 2 2).
    + reflexivity.
  - apply (calculateBasePriority_formula (rupees 10000) 30 0.1
             NORMAL MEDICAL BASIC BASIC 10 10).
    reflexivity.
Defined.





End PriorityCalculator.

(** * The example runs are runs *)

Section ScenarioRuns.

Lemma bank_keyed : accounts_keyed Scenario.bank.
Proof.
  intros k a H. unfold Scenario.bank in H.
  destruct (decide (k = "X")) as [-> | HX].
  - rewrite lookup_insert_eq in H. injection H as <-. reflexivity.
  - rewrite lookup_insert_ne in H by congruence.
    destruct (decide (k = "Y")) as [-> | HY].
    + rewrite lookup_insert_eq in H. injection H as <-. reflexivity.
    + rewrite lookup_insert_ne, lookup_empty in H by congruence. discriminate.
Qed.

Lemma afterFirst_reachable : reachable defaultConfig Scenario.bank Scenario.afterFirst.
Proof.
  eapply reachable_step; [apply reachable_init |].
  apply (step_initiateTransfer defaultConfig _ "X" "1002" (rupees 500) NORMAL "b7e1" 0 0).
  reflexivity.
Qed.

Lemma afterAging_reachable : reachable defaultConfig Scenario.bank Scenario.afterAging.
Proof.
  eapply reachable_step; [| apply step_updateAllPriorities].
  eapply reachable_step; [apply afterFirst_reachable |].
  apply (step_initiateTransfer defaultConfig _ "X" "1002" (rupees 500) NORMAL "a3c9" 500 500).
  vm_compute. reflexivity.
Qed.

Lemma reservedFirst_reachable : reachable defaultConfig Scenario.bank Scenario.reservedFirst.
Proof. eapply reachable_step; [apply afterFirst_reachable | apply step_reserveFunds]. Qed.

Lemma completedFirst_reachable :
  reachable defaultConfig Scenario.bank Scenario.completedFirst.
Proof. eapply reachable_step; [apply reservedFirst_reachable | apply step_finalize]. Qed.

Lemma oneLargeReserved_reachable :
  reachable defaultConfig Scenario.bank Scenario.oneLargeReserved.
Proof.
  eapply reachable_step; [| apply step_reserveFunds].
  eapply reachable_step; [eapply reachable_step; [apply reachable_init |] |].
  - apply (step_initiateTransfer defaultConfig _ "X" "1002" (rupees 9960) NORMAL "c001" 0 0).
    reflexivity.
  - apply (step_initiateTransfer defaultConfig _ "X" "1002" (rupees 9960) NORMAL "c002" 10 10).
    vm_compute. reflexivity.
Qed.

End ScenarioRuns.

(** * Redis sorted sets keep their rank order *)

Section SortedSets.

Import ZSet.

Lemma ascii_compare_lt_trans (a b c : ascii) :
  Ascii.compare a b = Lt -> Ascii.compare b c = Lt -> Ascii.compare a c = Lt.
Proof. unfold Ascii.compare. rewrite !N.compare_lt_iff. lia. Qed.

Lemma string_compare_lt_trans (a b c : string) :
  String.compare a b = Lt -> String.compare b c = Lt -> String.compare a c = Lt.
Proof.
  revert b c. induction a as [|x a IH]; intros [|y b] [|z c]; simpl; try congruence.
  destruct (Ascii.compare x y) eqn:Hxy; try discriminate;
    destruct (Ascii.compare y z) eqn:Hyz; try discriminate; intros H1 H2.
  - apply Ascii.compare_eq_iff in Hxy, Hyz. subst.
    assert (Ascii.compare z z = Eq) as -> by (unfold Ascii.compare; apply N.compare_refl).
    eauto.
  - apply Ascii.compare_eq_iff in Hxy. subst. now rewrite Hyz.
  - apply Ascii.compare_eq_iff in Hyz. subst. now rewrite Hxy.
  - now rewrite (ascii_compare_lt_trans _ _ _ Hxy Hyz).
Qed.

Lemma string_ltb_trans (a b c : string) :
  String.ltb a b = true -> String.ltb b c = true -> String.ltb a c = true.
Proof.
  unfold String.ltb. intros H1 H2.
  destruct (String.compare a b) eqn:Hab; try discriminate.
  destruct (String.compare b c) eqn:Hbc; try discriminate.
  now rewrite (string_compare_lt_trans _ _ _ Hab Hbc).
Qed.

Lemma string_ltb_total (a b : string) :
  a <> b -> String.ltb a b = true \/ String.ltb b a = true.
Proof.
  intros Hne. unfold String.ltb. rewrite (String.compare_antisym b a).
  destruct (String.compare a b) eqn:Hab; simpl; auto.
  apply String.compare_eq_iff in Hab. contradiction.
Qed.

Lemma entry_ltb_lt (a b : string * Q) : entry_ltb a b = true <-> entry_lt a b.
Proof.
  unfold entry_ltb, entry_lt.
  destruct (a.2 ?= b.2)%Q eqn:Hc.
  - apply Qeq_alt in Hc. split; [tauto |]. intros [H | [_ H]]; [lra | exact H].
  - apply Qlt_alt in Hc. split; [tauto | reflexivity].
  - apply Qgt_alt in Hc. split; [discriminate |]. intros [H | [H _]]; lra.
Qed.

Lemma entry_lt_trans (a b c : string * Q) : entry_lt a b -> entry_lt b c -> entry_lt a c.
Proof.
  unfold entry_lt. intros [H1 | [H1 L1]] [H2 | [H2 L2]].
  - left. lra.
  - left. lra.
  - left. lra.
  - right. split; [lra | eapply string_ltb_trans; eauto].
Qed.

(** The order is total on entries with different members. *)
Lemma entry_ltb_false (a b : string * Q) :
  entry_ltb a b = false -> a.1 <> b.1 -> entry_lt b a.
Proof.
  unfold entry_ltb, entry_lt. intros H Hne.
  destruct (a.2 ?= b.2)%Q eqn:Hc.
  - apply Qeq_alt in Hc. right. split; [lra |].
    destruct (string_ltb_total a.1 b.1 Hne) as [Hl | Hl]; congruence.
  - discriminate.
  - apply Qgt_alt in Hc. left. lra.
Qed.

Lemma Forall_place (P : string * Q -> Prop) e l :
  P e -> Forall P l -> Forall P (place e l).
Proof.
  intros He Hl. induction Hl as [|x l Hx Hl IH]; simpl.
  - repeat constructor. exact He.
  - destruct (entry_ltb e x); repeat constructor; auto.
Qed.

Lemma place_well_ranked e l :
  well_ranked l -> Forall (fun x => x.1 <> e.1) l -> well_ranked (place e l).
Proof.
  unfold well_ranked. intros Hs. induction Hs as [|x l Hs IH Hx]; intros Hne; simpl.
  - repeat constructor.
  - apply Forall_cons in Hne as [Hxe Hne].
    destruct (entry_ltb e x) eqn:Hc.
    + apply entry_ltb_lt in Hc. constructor; [constructor; assumption |].
      constructor; [exact Hc |].
      eapply Forall_impl; [exact Hx |]. intros y Hy. eapply entry_lt_trans; eauto.
    + constructor; [apply IH; exact Hne |].
      apply Forall_place; [| exact Hx].
      apply entry_ltb_false; [exact Hc | congruence].
Qed.

Lemma zrem_well_ranked member l : well_ranked l -> well_ranked (zrem member l).
Proof.
  unfold well_ranked, zrem. intros Hs. induction Hs as [|x l Hs IH Hx].
  - constructor.
  - rewrite filter_cons. destruct (decide (x.1 <> member)); [| exact IH].
    constructor; [exact IH |].
    rewrite Forall_forall in Hx. apply Forall_forall. intros y Hy.
    apply Hx. apply list_elem_of_filter in Hy. tauto.
Qed.

Lemma zrem_not_member member l : Forall (fun x => x.1 <> member) (zrem member l).
Proof.
  unfold zrem. apply Forall_forall. intros x Hx.
  apply list_elem_of_filter in Hx. tauto.
Qed.

Lemma zadd_well_ranked score member l : well_ranked l -> well_ranked (zadd score member l).
Proof.
  intros Hs. unfold zadd. apply place_well_ranked.
  - now apply zrem_well_ranked.
  - apply zrem_not_member.
Qed.

Lemma well_ranked_lookup l i j a b :
  well_ranked l -> (i < j)%nat -> l !! i = Some a -> l !! j = Some b -> entry_lt a b.
Proof.
  unfold well_ranked. intros Hs. revert i j.
  induction Hs as [|x l Hs IH Hx]; intros i j Hij Hi Hj.
  - rewrite lookup_nil in Hi. discriminate.
  - destruct j as [|j]; [lia |]. simpl in Hj. destruct i as [|i].
    + simpl in Hi. injection Hi as ->.
      rewrite Forall_forall in Hx. apply Hx.
      eapply list_elem_of_lookup_2; eauto.
    + simpl in Hi. apply (IH i j); [lia | assumption | assumption].
Qed.

Lemma zrem_absent member l : ~ In member (members l) -> zrem member l = l.
Proof.
  unfold zrem, members. induction l as [|x l IH]; intros Hn; [reflexivity |].
  rewrite filter_cons. simpl in Hn.
  destruct (decide (x.1 <> member)) as [_ | Heq].
  - f_equal. apply IH. tauto.
  - exfalso. apply Hn. left. destruct (decide (x.1 = member)); tauto.
Qed.

Lemma zrem_members member l : ~ In member (members (zrem member l)).
Proof.
  unfold members. intros Hin.
  apply in_map_iff in Hin as (x & Hx & Hin).
  pose proof (zrem_not_member member l) as Hf. rewrite Forall_forall in Hf.
  apply list_elem_of_In in Hin. apply (Hf x Hin Hx).
Qed.

End SortedSets.

(** * The priority queue stays in rank order along every run *)

Section QueueOrder.

Lemma preserves_ret {A} P (a : A) : preserves P (ret a).
Proof. intros s H. exact H. Qed.

Lemma preserves_throw {A} P msg : preserves P (@throw A msg).
Proof. intros s H. exact H. Qed.

Lemma preserves_bind {A B} P (c : M A) (k : A -> M B) :
  preserves P c -> (forall a, preserves P (k a)) -> preserves P (bind c k).
Proof.
  intros Hc Hk s H. unfold bind. specialize (Hc s H).
  destruct (c s) as [[a | msg] s1]; simpl in *; [now apply Hk | exact Hc].
Qed.

Lemma preserves_prisma_transaction {A} P (c : M A) :
  rollback_closed P -> preserves P c -> preserves P (prisma_transaction c).
Proof.
  intros HP Hc s H. unfold prisma_transaction. specialize (Hc s H).
  destruct (c s) as [[a | msg] s1]; simpl in *; [exact Hc | now apply HP].
Qed.

Lemma preserves_route P (c : M Controllers.Response) s :
  preserves P c -> P s -> P (Controllers.route c s).2.
Proof.
  intros Hc H. unfold Controllers.route. specialize (Hc s H).
  destruct (c s) as [[a | msg] s1]; simpl in *; exact Hc.
Qed.

Lemma queue_ranked_rollback_closed : rollback_closed queue_ranked.
Proof. intros s s' _ H. exact H. Qed.

(** The Prisma calls do not touch Redis. *)
Lemma preserves_account_findUnique id : preserves queue_ranked (Prisma.account_findUnique id).
Proof. intros s H. exact H. Qed.
Lemma preserves_account_findByNumber n : preserves queue_ranked (Prisma.account_findByNumber n).
Proof. intros s H. exact H. Qed.
Lemma preserves_account_update id f : preserves queue_ranked (Prisma.account_update id f).
Proof. intros s H. unfold Prisma.account_update. destruct (accounts s !! id); exact H. Qed.
Lemma preserves_transaction_findUnique id :
  preserves queue_ranked (Prisma.transaction_findUnique id).
Proof. intros s H. exact H. Qed.
Lemma preserves_transaction_update id f :
  preserves queue_ranked (Prisma.transaction_update id f).
Proof. intros s H. unfold Prisma.transaction_update. destruct (transactions s !! id); exact H. Qed.
Lemma preserves_transaction_create t : preserves queue_ranked (Prisma.transaction_create t).
Proof. intros s H. exact H. Qed.
Lemma preserves_ledgerEntry_create e : preserves queue_ranked (Prisma.ledgerEntry_create e).
Proof. intros s H. exact H. Qed.
Lemma preserves_ledgerEntry_createMany es :
  preserves queue_ranked (Prisma.ledgerEntry_createMany es).
Proof. intros s H. exact H. Qed.

Lemma preserves_enqueue cfg id p c now :
  preserves queue_ranked (QueueService.enqueue cfg id p c now).
Proof. intros s H. apply zadd_well_ranked. exact H. Qed.

Lemma preserves_dequeue id : preserves queue_ranked (QueueService.dequeue id).
Proof. intros s H. apply zrem_well_ranked. exact H. Qed.

Lemma updateOne_well_ranked cfg now txId acc data :
  ZSet.well_ranked acc.1 ->
  ZSet.well_ranked (QueueService.updateOne cfg now txId acc data).1.
Proof.
  intros H. unfold QueueService.updateOne.
  destruct (data !! txId) as [[p c] |]; [| exact H].
  apply zadd_well_ranked. exact H.
Qed.

Lemma preserves_updateAllPriorities cfg now :
  preserves queue_ranked (QueueService.updateAllPriorities cfg now).
Proof.
  intros s H. unfold QueueService.updateAllPriorities, queue_ranked. simpl.
  generalize (ZSet.members (ZSet.zrange 0 (-1) (priority_queue s))).
  assert (Hacc : ZSet.well_ranked (priority_queue s, 0).1) by exact H.
  revert Hacc. generalize (priority_queue s, 0).
  intros acc Hacc l. revert acc Hacc.
  induction l as [|x l IH]; intros acc Hacc; simpl; [exact Hacc |].
  apply IH. now apply updateOne_well_ranked.
Qed.

Create HintDb preserve discriminated.
#[local] Hint Resolve preserves_ret preserves_throw preserves_account_findUnique
  preserves_account_findByNumber preserves_account_update
  preserves_transaction_findUnique preserves_transaction_update
  preserves_transaction_create preserves_ledgerEntry_create
  preserves_ledgerEntry_createMany preserves_enqueue preserves_dequeue
  preserves_updateAllPriorities : preserve.

(** Goes through a promise: binds, branches and the calls above. *)
Ltac preserve :=
  repeat first
    [ solve [auto with preserve]
    | apply preserves_prisma_transaction; [exact queue_ranked_rollback_closed |]
    | apply preserves_bind; [| intros ?]
    | match goal with
      | |- preserves _ (match ?x with _ => _ end) => destruct x
      | |- preserves _ (fun s => (Returned _, _)) => intros ? ?
      end ].

Lemma preserves_lockTransaction cfg id now :
  preserves queue_ranked (TimelockService.lockTransaction cfg id now).
Proof. unfold TimelockService.lockTransaction. preserve. Qed.

Lemma preserves_moveToQueue cfg id now :
  preserves queue_ranked (TimelockService.moveToQueue cfg id now).
Proof. unfold TimelockService.moveToQueue. preserve. Qed.

Lemma preserves_moveAll cfg now l : preserves queue_ranked (TimelockService.moveAll cfg now l).
Proof.
  induction l as [|x l IH]; simpl; [apply preserves_ret |].
  apply preserves_bind; [apply preserves_moveToQueue | intros _; exact IH].
Qed.

Lemma preserves_processUnlocked cfg now :
  preserves queue_ranked (TimelockService.processUnlocked cfg now).
Proof.
  unfold TimelockService.processUnlocked.
  apply preserves_bind; [intros s H; exact H | intros l].
  apply preserves_bind; [apply preserves_moveAll | intros _; apply preserves_ret].
Qed.

Lemma preserves_cancelLocked id : preserves queue_ranked (TimelockService.cancelLocked id).
Proof. unfold TimelockService.cancelLocked. preserve. Qed.

#[local] Hint Resolve preserves_lockTransaction preserves_moveToQueue preserves_processUnlocked
  preserves_cancelLocked : preserve.

Lemma preserves_initiateTransfer cfg from toNumber amt u newId created now :
  preserves queue_ranked
    (TransactionService.initiateTransfer cfg from toNumber amt u newId created now).
Proof. unfold TransactionService.initiateTransfer. preserve. Qed.

Lemma preserves_reserveFunds id cfg now :
  preserves queue_ranked (TransactionService.reserveFunds id cfg now).
Proof. unfold TransactionService.reserveFunds. preserve. Qed.

Lemma preserves_finalize id now : preserves queue_ranked (TransactionService.finalize id now).
Proof. unfold TransactionService.finalize. preserve. Qed.

Lemma preserves_rollback id reason :
  preserves queue_ranked (TransactionService.rollback id reason).
Proof. unfold TransactionService.rollback. preserve. Qed.

#[local] Hint Resolve preserves_reserveFunds preserves_finalize preserves_rollback : preserve.

Lemma preserves_completeManual id cfg now :
  preserves queue_ranked (TransactionService.completeManual id cfg now).
Proof. unfold TransactionService.completeManual. preserve. Qed.

Lemma step_queue_ranked cfg s s' : step cfg s s' -> queue_ranked s -> queue_ranked s'.
Proof.
  intros Hstep H. destruct Hstep.
  - exact H.
  - now apply preserves_initiateTransfer.
  - now apply preserves_reserveFunds.
  - now apply preserves_finalize.
  - now apply preserves_rollback.
  - now apply preserves_completeManual.
  - now apply preserves_processUnlocked.
  - now apply preserves_updateAllPriorities.
  - unfold Controllers.customerCancel. apply preserves_route; [| exact H].
    unfold TransactionService.getById. preserve.
  - unfold Controllers.adminCancel. apply preserves_route; [| exact H]. preserve.
Qed.

Lemma reachable_queue_ranked cfg accs s : reachable cfg accs s -> queue_ranked s.
Proof.
  induction 1 as [| s s' _ IH Hstep].
  - constructor.
  - eapply step_queue_ranked; eauto.
Qed.

End QueueOrder.

Section QueueRanking.

(** C7.  The priority queue does not break ties by creation time.  Two
    transfers with the same base priority are created half a second apart
    (b7e1 at 0, a3c9 at 500) and re-ranked by one aging sweep, so they have
    the same effective priority, 2 + 0 * 0.1 for both, with or without
    rounding.  [ZRANGE] ranks the later one (a3c9) first, because Redis
    orders equal scores by member, and [popTop] returns it.  The database
    ordering of the same service (the query of [processNext]: base priority
    descending, then creation time ascending) selects the earlier one
    (b7e1) in the same state. *)
Theorem later_transfer_ranked_first :
  (QueueService.calculateEffectivePriority defaultConfig 2.000 0 900
   == QueueService.calculateEffectivePriority defaultConfig 2.000 500 900)%Q /\
  QueueService.calculateEffectivePriority64 defaultConfig 2.000 0 900
    = QueueService.calculateEffectivePriority64 defaultConfig 2.000 500 900 /\
  txn_data Scenario.afterAging !! "b7e1" = Some (2.000%Q, 0) /\
  txn_data Scenario.afterAging !! "a3c9" = Some (2.000%Q, 500) /\
  (QueueService.getTop 10 Scenario.afterAging).1
    = Returned [("a3c9", (-2.0000)%Q); ("b7e1", (-2.0000)%Q)] /\
  (QueueService.popTop Scenario.afterAging).1 = Returned (Some "a3c9") /\
  (TransactionService.findFirstPending Scenario.afterAging).1
    = Returned (Some Scenario.txFirst) /\
  ~ Spec.ties_by_creation_time Scenario.afterAging.
Proof.
  split; [reflexivity |].
  split; [vm_compute; reflexivity |].
  split; [vm_compute; reflexivity |].
  split; [vm_compute; reflexivity |].
  split; [vm_compute; reflexivity |].
  split; [vm_compute; reflexivity |].
  split; [vm_compute; reflexivity |].
  intros H.
  assert (Hq : priority_queue Scenario.afterAging
               = [("a3c9", (-2.0000)%Q); ("b7e1", (-2.0000)%Q)])
    by (vm_compute; reflexivity).
  specialize (H ("b7e1", (-2.0000)%Q) ("a3c9", (-2.0000)%Q) 2.000%Q 2.000%Q 0 500).
  rewrite Hq in H.
  destruct H as (i & j & Hij & Hi & Hj).
  - simpl. tauto.
  - simpl. tauto.
  - reflexivity.
  - vm_compute. reflexivity.
  - vm_compute. reflexivity.
  - lia.
  - destruct i as [|[|i]]; simpl in Hi; try discriminate.
    destruct j as [|[|j]]; simpl in Hj; try discriminate; lia.
Qed.

End QueueRanking.

(** * The tables keep their shape along every run *)

Section DatabaseShape.

Lemma db_ok_rollback_closed : rollback_closed db_ok.
Proof. intros s s' H _. exact H. Qed.

(** Operations that leave the two tables as they are. *)
Lemma preserves_db_unchanged {A} (c : M A) :
  (forall s, accounts (c s).2 = accounts s /\ transactions (c s).2 = transactions s) ->
  preserves db_ok c.
Proof.
  intros Hc s [Hk Ht]. destruct (Hc s) as [Ea Et]. unfold db_ok.
  rewrite Ea, Et. split; assumption.
Qed.

Lemma db_ok_account_insert s k a a' :
  db_ok s -> accounts s !! k = Some a -> acc_id a' = k ->
  db_ok (with_accounts (<[k := a']> (accounts s)) s).
Proof.
  intros [Hk Ht] Ha Hid. split; simpl.
  - intros k' b Hb. destruct (decide (k = k')) as [<- | Hne].
    + rewrite lookup_insert_eq in Hb. congruence.
    + rewrite lookup_insert_ne in Hb by exact Hne. now apply Hk.
  - intros id t Hl. destruct (Ht id t Hl) as (Hne & Hf & Hto).
    split; [exact Hne |]. split; apply lookup_insert_is_Some'; now right.
Qed.

Lemma preserves_db_account_update id f :
  (forall a, acc_id (f a) = acc_id a) -> preserves db_ok (Prisma.account_update id f).
Proof.
  intros Hf s H. unfold Prisma.account_update.
  destruct (accounts s !! id) as [a |] eqn:Ha; [| exact H]. simpl.
  apply (db_ok_account_insert s id a); [exact H | exact Ha |].
  rewrite Hf. destruct H as [Hk _]. now apply Hk.
Qed.

Lemma db_ok_transaction_insert s id t :
  db_ok s ->
  fromAccountId t <> toAccountId t ->
  is_Some (accounts s !! fromAccountId t) ->
  is_Some (accounts s !! toAccountId t) ->
  db_ok (with_transactions (<[id := t]> (transactions s)) s).
Proof.
  intros [Hk Ht] Hne Hf Hto. split; simpl; [exact Hk |].
  intros id' t' Hl. destruct (decide (id = id')) as [<- | Hn].
  - rewrite lookup_insert_eq in Hl. injection Hl as <-. auto.
  - rewrite lookup_insert_ne in Hl by exact Hn. now apply (Ht id').
Qed.

Lemma preserves_db_transaction_update id f :
  (forall t, fromAccountId (f t) = fromAccountId t /\ toAccountId (f t) = toAccountId t) ->
  preserves db_ok (Prisma.transaction_update id f).
Proof.
  intros Hf s H. unfold Prisma.transaction_update.
  destruct (transactions s !! id) as [t |] eqn:Hl; [| exact H]. simpl.
  destruct (Hf t) as [E1 E2]. destruct H as [Hk Ht].
  destruct (Ht id t Hl) as (Hne & Hfrom & Hto).
  apply db_ok_transaction_insert; [split; assumption | | |]; rewrite ?E1, ?E2; assumption.
Qed.

(** Goes through a promise, for the shape of the tables. *)
Ltac preserve_db :=
  repeat first
    [ apply preserves_ret
    | apply preserves_throw
    | apply preserves_prisma_transaction; [exact db_ok_rollback_closed |]
    | apply preserves_bind; [| intros ?]
    | apply preserves_db_account_update; intros; reflexivity
    | apply preserves_db_transaction_update; intros; split; reflexivity
    | assumption
    | match goal with
      | |- preserves _ (match ?x with _ => _ end) => destruct x
      end
    | apply preserves_db_unchanged; intros; split; reflexivity ].

Lemma preserves_db_lockTransaction cfg id now :
  preserves db_ok (TimelockService.lockTransaction cfg id now).
Proof. unfold TimelockService.lockTransaction. preserve_db. Qed.

Lemma preserves_db_enqueue cfg id p c now :
  preserves db_ok (QueueService.enqueue cfg id p c now).
Proof. preserve_db. Qed.

Lemma preserves_db_moveToQueue cfg id now :
  preserves db_ok (TimelockService.moveToQueue cfg id now).
Proof. unfold TimelockService.moveToQueue. preserve_db. Qed.

Lemma preserves_db_moveAll cfg now l : preserves db_ok (TimelockService.moveAll cfg now l).
Proof.
  induction l as [|x l IH]; simpl; [apply preserves_ret |].
  apply preserves_bind; [apply preserves_db_moveToQueue | intros _; exact IH].
Qed.

Lemma preserves_db_processUnlocked cfg now :
  preserves db_ok (TimelockService.processUnlocked cfg now).
Proof.
  unfold TimelockService.processUnlocked.
  apply preserves_bind; [preserve_db | intros l].
  apply preserves_bind; [apply preserves_db_moveAll | intros _; apply preserves_ret].
Qed.

Lemma preserves_db_cancelLocked id : preserves db_ok (TimelockService.cancelLocked id).
Proof. unfold TimelockService.cancelLocked. preserve_db. Qed.

Lemma preserves_db_reserveFunds id cfg now :
  preserves db_ok (TransactionService.reserveFunds id cfg now).
Proof. unfold TransactionService.reserveFunds. preserve_db. Qed.

Lemma preserves_db_finalize id now : preserves db_ok (TransactionService.finalize id now).
Proof. unfold TransactionService.finalize. preserve_db. Qed.

Lemma preserves_db_rollback id reason :
  preserves db_ok (TransactionService.rollback id reason).
Proof. unfold TransactionService.rollback. preserve_db. Qed.

Lemma preserves_db_completeManual id cfg now :
  preserves db_ok (TransactionService.completeManual id cfg now).
Proof.
  pose proof (preserves_db_reserveFunds id cfg now).
  pose proof (preserves_db_finalize id now).
  unfold TransactionService.completeManual. preserve_db.
Qed.

Lemma find_account_by_number (accs : gmap string Account) number k a :
  List.find (fun kv : string * Account => String.eqb (accountNumber kv.2) number)
            (map_to_list accs) = Some (k, a) ->
  accs !! k = Some a.
Proof.
  intros H. apply find_some in H as [Hin _].
  apply list_elem_of_In, elem_of_map_to_list in Hin. exact Hin.
Qed.

Lemma preserves_db_initiateTransfer cfg from toNumber amt u newId created now :
  preserves db_ok
    (TransactionService.initiateTransfer cfg from toNumber amt u newId created now).
Proof.
  intros s H. unfold TransactionService.initiateTransfer, bind at 1, Prisma.account_findUnique.
  destruct (accounts s !! from) as [fromAccount |] eqn:Hfrom; [| exact H].
  unfold bind at 1, Prisma.account_findByNumber.
  destruct (List.find _ (map_to_list (accounts s))) as [[k toAccount] |] eqn:Hfind;
    [| exact H].
  apply find_account_by_number in Hfind. simpl.
  pose proof H as [Hk _].
  rewrite (Hk _ _ Hfrom), (Hk _ _ Hfind).
  destruct (String.eqb_spec from k) as [-> | Hne]; [exact H |].
  destruct (_ <? amt); [exact H |].
  match goal with
  | |- db_ok (bind (Prisma.transaction_create ?t) ?k ?s).2 =>
      change (db_ok (k t (with_transactions (<[newId := t]> (transactions s)) s)).2);
      assert (Hc : db_ok (with_transactions (<[newId := t]> (transactions s)) s))
        by (apply db_ok_transaction_insert; simpl; eauto);
      revert Hc; generalize (with_transactions (<[newId := t]> (transactions s)) s)
  end.
  intros s1 H1. simpl.
  assert (Hp : forall (c : M unit) (x : Transaction),
            preserves db_ok c -> preserves db_ok (bind c (fun _ => ret x)))
    by (intros; preserve_db).
  pose proof (preserves_db_lockTransaction cfg newId now).
  pose proof (preserves_db_enqueue cfg).
  apply Hp; [| exact H1].
  destruct (_ <? amt); preserve_db.
Qed.

Lemma preserves_db_createAccount newId number tier deposit s :
  accounts s !! newId = None -> db_ok s ->
  db_ok (AccountService.createAccount newId number tier deposit s).2.
Proof.
  intros Hn [Hk Ht]. unfold AccountService.createAccount, Prisma.account_create. simpl.
  split; simpl.
  - intros k a Ha. destruct (decide (newId = k)) as [<- | Hne].
    + rewrite lookup_insert_eq in Ha. injection Ha as <-. reflexivity.
    + rewrite lookup_insert_ne in Ha by exact Hne. now apply Hk.
  - intros id t Hl. destruct (Ht id t Hl) as (Hne & Hf & Hto).
    split; [exact Hne |]. split; apply lookup_insert_is_Some'; now right.
Qed.

Lemma step_db_ok cfg s s' : step cfg s s' -> db_ok s -> db_ok s'.
Proof.
  intros Hstep H. destruct Hstep.
  - now apply preserves_db_createAccount.
  - now apply preserves_db_initiateTransfer.
  - now apply preserves_db_reserveFunds.
  - now apply preserves_db_finalize.
  - now apply preserves_db_rollback.
  - now apply preserves_db_completeManual.
  - now apply preserves_db_processUnlocked.
  - apply preserves_db_unchanged; [| exact H]. intros; split; reflexivity.
  - unfold Controllers.customerCancel. apply preserves_route; [| exact H].
    pose proof (preserves_db_cancelLocked id).
    unfold TransactionService.getById. preserve_db.
  - unfold Controllers.adminCancel. apply preserves_route; [| exact H].
    pose proof (preserves_db_rollback id (Controllers.reasonOrDefault reason)).
    preserve_db.
Qed.

(** Along every run from keyed accounts, each transaction has a source and
    a destination row, stored under their keys, and the two differ: the
    side conditions of the theorems on [reserveFunds] and [finalize] below
    hold for every transaction the system can hold. *)
Lemma reachable_db_ok cfg accs s :
  accounts_keyed accs -> reachable cfg accs s -> db_ok s.
Proof.
  intros Hk. induction 1 as [| s s' _ IH Hstep].
  - split; [exact Hk |]. intros id t Hl. simpl in Hl. rewrite lookup_empty in Hl. discriminate.
  - eapply step_db_ok; eauto.
Qed.

Lemma reachable_transaction_accounts cfg accs s id t :
  accounts_keyed accs -> reachable cfg accs s ->
  transactions s !! id = Some t ->
  exists src dst,
    accounts s !! fromAccountId t = Some src /\ acc_id src = fromAccountId t /\
    accounts s !! toAccountId t = Some dst /\ acc_id dst = toAccountId t /\
    fromAccountId t <> toAccountId t.
Proof.
  intros Hk Hr Hl. destruct (reachable_db_ok _ _ _ Hk Hr) as [Hkeys Ht].
  destruct (Ht id t Hl) as (Hne & [src Hs] & [dst Hd]).
  exists src, dst. repeat split; auto.
Qed.

End DatabaseShape.

(** * The transaction state machine *)

Section StateMachine.

Import TransactionService.

(** Unfolds a promise down to the state it computes. *)
Ltac run :=
  unfold prisma_transaction, bind, ret, throw,
    Prisma.transaction_findUnique, Prisma.account_findUnique,
    Prisma.account_update, Prisma.transaction_update,
    Prisma.ledgerEntry_create, Prisma.ledgerEntry_createMany,
    QueueService.dequeue, QueueService.enqueue;
  simpl.

Lemma reserveFunds_insufficient cfg id now s t src :
  transactions s !! id = Some t ->
  isPendingReservation (status t) = true ->
  accounts s !! fromAccountId t = Some src ->
  availableAfterReserve cfg src < amount t ->
  reserveFunds id cfg now s =
    (Returned false,
     with_transactions
       (<[id := set_failureReason "Insufficient balance (Minimum balance requirement)"
                  (set_status FAILED t)]> (transactions s)) s).
Proof.
  intros Ht Hst Hsrc Hlt. unfold reserveFunds. run.
  rewrite Ht, Hst. simpl. rewrite Hsrc.
  apply Z.ltb_lt in Hlt. rewrite Hlt. simpl. rewrite Ht. reflexivity.
Qed.

Lemma reserveFunds_sufficient cfg id now s t src :
  transactions s !! id = Some t ->
  isPendingReservation (status t) = true ->
  accounts s !! fromAccountId t = Some src ->
  acc_id src = fromAccountId t ->
  amount t <= availableAfterReserve cfg src ->
  reserveFunds id cfg now s =
    (Returned true,
     mkState
       (<[fromAccountId t := set_reservedAmount (reservedAmount src + amount t) src]>
          (accounts s))
       (<[id := set_reservedAt now (set_status RESERVED t)]> (transactions s))
       (ledger s ++ [mkLedgerEntry (fromAccountId t) id RESERVE (amount t) (balance src)
                       (String.append "Reserved for transfer to " (toAccountId t))])
       (priority_queue s) (timelock_heap s) (txn_data s)).
Proof.
  intros Ht Hst Hsrc Hid Hge. unfold reserveFunds. run.
  rewrite Ht, Hst. simpl. rewrite Hsrc.
  apply Z.ltb_ge in Hge. rewrite Hge. simpl.
  rewrite Hid, Hsrc. simpl. rewrite Ht. reflexivity.
Qed.

(** C1.  Reserving for a QUEUED or PENDING_MANUAL transaction, in tables
    of the right shape: the source account exists and, with available =
    balance - reservedAmount - tierReserve, if available < amount the call
    returns false, the transaction becomes FAILED with the
    insufficient-balance reason and neither the accounts nor the ledger
    change; otherwise it returns true, the reserved amount of the source
    grows by exactly the amount, no other account changes, one RESERVE entry
    is appended to the ledger and the transaction becomes RESERVED, stamped
    with the time of the reservation. *)
Theorem reserveFunds_contract :
  forall (cfg : Config) (id : string) (now : Z) (s : State) (t : Transaction),
    db_ok s ->
    transactions s !! id = Some t ->
    status t = QUEUED \/ status t = PENDING_MANUAL ->
    exists src : Account,
      accounts s !! fromAccountId t = Some src /\
      let available := balance src - reservedAmount src - tierReserves cfg (tier src) in
      let (result, s') := reserveFunds id cfg now s in
      (available < amount t ->
         result = Returned false /\
         transactions s' !! id
           = Some (set_failureReason "Insufficient balance (Minimum balance requirement)"
                     (set_status FAILED t)) /\
         status <$> transactions s' !! id = Some FAILED /\
         failureReason <$> transactions s' !! id
           = Some (Some "Insufficient balance (Minimum balance requirement)") /\
         accounts s' = accounts s /\
         ledger s' = ledger s) /\
      (amount t <= available ->
         result = Returned true /\
         accounts s' !! fromAccountId t
           = Some (set_reservedAmount (reservedAmount src + amount t) src) /\
         (forall k, k <> fromAccountId t -> accounts s' !! k = accounts s !! k) /\
         ledger s'
           = ledger s ++ [mkLedgerEntry (fromAccountId t) id RESERVE (amount t) (balance src)
                            (String.append "Reserved for transfer to " (toAccountId t))] /\
         transactions s' !! id = Some (set_reservedAt now (set_status RESERVED t)) /\
         status <$> transactions s' !! id = Some RESERVED /\
         reservedAt <$> transactions s' !! id = Some (Some now)).
Proof.
  intros cfg id now s t [Hk Htx] Ht Hst.
  destruct (Htx id t Ht) as (_ & [src Hsrc] & _).
  pose proof (Hk _ _ Hsrc) as Hid.
  exists src. split; [exact Hsrc |]. intros available.
  assert (Hp : isPendingReservation (status t) = true)
    by (destruct Hst as [-> | ->]; reflexivity).
  destruct (Z.lt_ge_cases available (amount t)) as [Hlt | Hge].
  - rewrite (reserveFunds_insufficient cfg id now s t src Ht Hp Hsrc Hlt).
    split; [intros _ | intros H; lia].
    split; [reflexivity |]. split; [apply lookup_insert_eq |].
    split; [simpl; rewrite lookup_insert_eq; reflexivity |].
    split; [simpl; rewrite lookup_insert_eq; reflexivity |]. split; reflexivity.
  - rewrite (reserveFunds_sufficient cfg id now s t src Ht Hp Hsrc Hid Hge).
    split; [intros H; lia | intros _].
    split; [reflexivity |]. split; [apply lookup_insert_eq |].
    split; [intros k Hk'; apply lookup_insert_ne; congruence |].
    split; [reflexivity |]. split; [apply lookup_insert_eq |].
    split; simpl; rewrite lookup_insert_eq; reflexivity.
Qed.

Lemma finalize_reserved id now s t src dst :
  transactions s !! id = Some t ->
  status t = RESERVED ->
  accounts s !! fromAccountId t = Some src ->
  accounts s !! toAccountId t = Some dst ->
  fromAccountId t <> toAccountId t ->
  finalize id now s =
    (Returned true,
     mkState
       (<[toAccountId t := set_balance (balance dst + amount t) dst]>
          (<[fromAccountId t :=
               set_reservedAmount (reservedAmount src - amount t)
                 (set_balance (balance src - amount t) src)]> (accounts s)))
       (<[id := set_completedAt now (set_status COMPLETED t)]> (transactions s))
       (ledger s ++
          [ mkLedgerEntry (fromAccountId t) id DEBIT (amount t) (balance src - amount t)
              (String.append "Transfer to " (toAccountId t));
            mkLedgerEntry (toAccountId t) id CREDIT (amount t) (balance dst + amount t)
              (String.append "Transfer from " (fromAccountId t)) ])
       (ZSet.zrem id (priority_queue s)) (timelock_heap s) (delete id (txn_data s))).
Proof.
  intros Ht Hst Hsrc Hdst Hne. unfold finalize. run.
  rewrite Ht, Hst. simpl. rewrite Hsrc. simpl.
  rewrite lookup_insert_ne by exact Hne. rewrite Hdst. simpl. rewrite Ht. reflexivity.
Qed.

Lemma finalize_rejects id now s :
  (forall t, transactions s !! id = Some t -> status t <> RESERVED) ->
  finalize id now s = (Returned false, s).
Proof.
  intros H. unfold finalize. run.
  destruct (transactions s !! id) as [t |] eqn:Ht; [| reflexivity].
  specialize (H t eq_refl).
  rewrite bool_decide_eq_false_2 by exact H. reflexivity.
Qed.

(** What a successful [finalize] tells about the state it started from. *)
Lemma finalize_true_inv id now s s' :
  finalize id now s = (Returned true, s') ->
  exists t src dst,
    transactions s !! id = Some t /\ status t = RESERVED /\
    accounts s !! fromAccountId t = Some src /\
    <[fromAccountId t :=
        set_reservedAmount (reservedAmount src - amount t)
          (set_balance (balance src - amount t) src)]> (accounts s) !! toAccountId t
      = Some dst /\
    transactions s' !! id = Some (set_completedAt now (set_status COMPLETED t)) /\
    accounts s' =
      <[toAccountId t := set_balance (balance dst + amount t) dst]>
        (<[fromAccountId t :=
             set_reservedAmount (reservedAmount src - amount t)
               (set_balance (balance src - amount t) src)]> (accounts s)).
Proof.
  unfold finalize. run. intros H.
  destruct (transactions s !! id) as [t |] eqn:Ht; [| discriminate].
  destruct (bool_decide (status t = RESERVED)) eqn:Hst; simpl in H; [| discriminate].
  apply bool_decide_eq_true_1 in Hst.
  destruct (accounts s !! fromAccountId t) as [src |] eqn:Hsrc; simpl in H; [| discriminate].
  match type of H with
  | context [ (<[fromAccountId t := ?v]> (accounts s)) !! toAccountId t ] =>
      destruct ((<[fromAccountId t := v]> (accounts s)) !! toAccountId t) as [dst |] eqn:Hdst
  end; simpl in H; [| discriminate].
  rewrite Ht in H. simpl in H. injection H as <-.
  exists t, src, dst. simpl. rewrite lookup_insert_eq. auto 10.
Qed.

(** C1 on two runs: 500 out of 20000 is reserved at time 1000; a second
    9960 on top of a reserved 9960 is refused, and the reason is stored. *)
Lemma reserveFunds_contract_witness :
  ((reserveFunds "b7e1" defaultConfig 1000 Scenario.afterFirst).1 = Returned true /\
   reservedAt <$> transactions (reserveFunds "b7e1" defaultConfig 1000 Scenario.afterFirst).2
                    !! "b7e1" = Some (Some 1000)) /\
  ((reserveFunds "c001" defaultConfig 2000 Scenario.oneLargeReserved).1 = Returned false /\
   failureReason <$> transactions
                       (reserveFunds "c001" defaultConfig 2000 Scenario.oneLargeReserved).2
                       !! "c001"
     = Some (Some "Insufficient balance (Minimum balance requirement)")).
Proof.
  split.
  - destruct (reserveFunds_contract defaultConfig "b7e1" 1000 Scenario.afterFirst
                Scenario.txFirst
                (reachable_db_ok _ _ _ bank_keyed afterFirst_reachable)
                ltac:(vm_compute; reflexivity) ltac:(left; reflexivity))
      as (src & Hsrc & H).
    vm_compute in Hsrc. injection Hsrc as <-. cbv zeta in H.
    destruct (reserveFunds "b7e1" defaultConfig 1000 Scenario.afterFirst) as [r s'].
    destruct H as [_ H].
    destruct H as (Hr & _ & _ & _ & _ & _ & Hat); [vm_compute; discriminate |].
    split; [exact Hr | exact Hat].
  - destruct (reserveFunds_contract defaultConfig "c001" 2000 Scenario.oneLargeReserved
                Scenario.txLarge
                (reachable_db_ok _ _ _ bank_keyed oneLargeReserved_reachable)
                ltac:(vm_compute; reflexivity) ltac:(left; reflexivity))
      as (src & Hsrc & H).
    vm_compute in Hsrc. injection Hsrc as <-. cbv zeta in H.
    destruct (reserveFunds "c001" defaultConfig 2000 Scenario.oneLargeReserved) as [r s'].
    destruct H as [H _].
    destruct H as (Hr & _ & _ & Hwhy & _); [vm_compute; reflexivity |].
    split; [exact Hr | exact Hwhy].
Defined.



(** C5.  When the transaction is not RESERVED, or does not exist,
    [finalize] returns false and the whole state (balances, reserved
    amounts, ledger, status, queue) is what it was.  So a second [finalize]
    after a successful one returns false and changes nothing: the source is
    debited once. *)
Theorem finalize_only_reserved :
  forall (id : string) (now : Z) (s : State),
    (forall t, transactions s !! id = Some t -> status t <> RESERVED ->
               finalize id now s = (Returned false, s)) /\
    (transactions s !! id = None -> finalize id now s = (Returned false, s)) /\
    (forall s', finalize id now s = (Returned true, s') ->
                forall now', finalize id now' s' = (Returned false, s')).
Proof.
  intros id now s. split; [| split].
  - intros t Ht Hst. apply finalize_rejects. intros t' Ht'. congruence.
  - intros Hn. apply finalize_rejects. intros t' Ht'. congruence.
  - intros s' H now'.
    apply finalize_true_inv in H as (t & src & dst & _ & _ & _ & _ & Ht' & _).
    apply finalize_rejects. intros t' Ht''. rewrite Ht' in Ht''.
    injection Ht'' as <-. simpl. discriminate.
Qed.

(** C5 on the completed transfer of the run: the second call is refused
    and X still holds 19500. *)
Lemma finalize_only_reserved_witness :
  finalize "b7e1" 3000 Scenario.completedFirst = (Returned false, Scenario.completedFirst) /\
  balance <$> accounts Scenario.completedFirst !! "X" = Some (rupees 19500).
Proof.
  split.
  - apply (finalize_only_reserved "b7e1" 2000 Scenario.reservedFirst).
    unfold Scenario.completedFirst.
    destruct (finalize "b7e1" 2000 Scenario.reservedFirst) as [r s'] eqn:E.
    assert (r = Returned true) as ->; [| reflexivity].
    change r with (r, s').1. rewrite <- E. vm_compute. reflexivity.
  - vm_compute. reflexivity.
Defined.

(** C10.  A successful [finalize] of a transaction between two different
    accounts moves exactly the amount: the source loses it, the destination
    gains it, and the sum of the two balances is the same before and
    after. *)
Theorem finalize_conserves_money :
  forall (id : string) (now : Z) (s s' : State) (t : Transaction),
    transactions s !! id = Some t ->
    fromAccountId t <> toAccountId t ->
    finalize id now s = (Returned true, s') ->
    exists src dst src' dst' : Account,
      accounts s !! fromAccountId t = Some src /\
      accounts s !! toAccountId t = Some dst /\
      accounts s' !! fromAccountId t = Some src' /\
      accounts s' !! toAccountId t = Some dst' /\
      balance src' = balance src - amount t /\
      balance dst' = balance dst + amount t /\
      balance src' + balance dst' = balance src + balance dst.
Proof.
  intros id now s s' t Ht Hne H.
  apply finalize_true_inv in H as (t0 & src & dst & Ht0 & _ & Hsrc & Hdst & _ & Hacc).
  rewrite Ht in Ht0. injection Ht0 as <-.
  rewrite lookup_insert_ne in Hdst by exact Hne.
  rewrite Hacc.
  eexists src, dst, _, _.
  split; [exact Hsrc |]. split; [exact Hdst |].
  split; [rewrite lookup_insert_ne by congruence; apply lookup_insert_eq |].
  split; [apply lookup_insert_eq |].
  simpl. lia.
Qed.

(** C10 on the run: X and Y hold 21000 together before and after. *)
Lemma finalize_conserves_money_witness :
  exists src' dst',
    accounts Scenario.completedFirst !! "X" = Some src' /\
    accounts Scenario.completedFirst !! "Y" = Some dst' /\
    balance src' + balance dst' = rupees 20000 + rupees 1000.
Proof.
  destruct (finalize_conserves_money "b7e1" 2000 Scenario.reservedFirst
              Scenario.completedFirst
              (set_reservedAt 1000 (set_status RESERVED Scenario.txFirst))
              ltac:(vm_compute; reflexivity) ltac:(discriminate)
              ltac:(vm_compute; reflexivity))
    as (src & dst & src' & dst' & H1 & H2 & H3 & H4 & _ & _ & H7).
  vm_compute in H1, H2. injection H1 as <-. injection H2 as <-.
  exists src', dst'. split; [exact H3 |]. split; [exact H4 |]. exact H7.
Defined.

End StateMachine.

(** * Admission and cancellation *)

Section Admission.

Import TransactionService.

Lemma In_place e l : In e (ZSet.place e l).
Proof.
  induction l as [|x l IH]; simpl; [now left |].
  destruct (ZSet.entry_ltb e x); simpl; auto.
Qed.

Lemma zadd_member score member l : In member (ZSet.members (ZSet.zadd score member l)).
Proof.
  unfold ZSet.members, ZSet.zadd. apply in_map_iff.
  exists (member, score). split; [reflexivity | apply In_place].
Qed.

Lemma zrem_count_pos member l : In member (ZSet.members l) -> 0 < ZSet.zrem_count member l.
Proof.
  unfold ZSet.members, ZSet.zrem_count, ZSet.zrem. intros Hin.
  apply in_map_iff in Hin as (x & Hx & Hin). apply list_elem_of_In in Hin.
  pose proof (length_filter_lt (fun e : string * Q => e.1 <> member) l x Hin) as Hlt.
  specialize (Hlt ltac:(intros Hn; exact (Hn Hx))). lia.
Qed.

Lemma moveAll_threshold threshold cfg now l :
  TimelockService.moveAll (with_timelockThreshold threshold cfg) now l
  = TimelockService.moveAll cfg now l.
Proof. induction l as [|x l IH]; simpl; [reflexivity |]. rewrite IH. reflexivity. Qed.

(** Apart from [initiateTransfer], the operations that take the
    configuration do not depend on its threshold. *)
Lemma threshold_read_at_admission_only threshold cfg id now clock s :
  reserveFunds id (with_timelockThreshold threshold cfg) now s = reserveFunds id cfg now s /\
  completeManual id (with_timelockThreshold threshold cfg) now s
    = completeManual id cfg now s /\
  TimelockService.processUnlocked (with_timelockThreshold threshold cfg) now s
    = TimelockService.processUnlocked cfg now s /\
  QueueService.updateAllPriorities (with_timelockThreshold threshold cfg) clock s
    = QueueService.updateAllPriorities cfg clock s.
Proof.
  split; [reflexivity |]. split; [reflexivity |]. split; [| reflexivity].
  unfold TimelockService.processUnlocked, bind. simpl.
  rewrite moveAll_threshold. reflexivity.
Qed.

(** C6.  A transfer that [initiateTransfer] accepts is created once, in
    status CREATED, and admitted by comparing its amount with the threshold:
    above the threshold it becomes LOCKED, with its unlock time stored on it
    and its id held in the time-lock set (the priority queue is untouched);
    at or below the threshold it becomes QUEUED and its id is in the
    priority queue (the time-lock set is untouched).  No other operation
    reads the threshold: they behave the same whatever its value. *)
Theorem initiateTransfer_admission :
  forall (cfg : Config) (from toNumber : string) (amt : Z) (u : Urgency)
         (newId : string) (created now : Z) (s s' : State) (t : Transaction),
    initiateTransfer cfg from toNumber amt u newId created now s = (Returned t, s') ->
    (tx_id t = newId /\ amount t = amt /\ status t = CREATED /\ createdAt t = created) /\
    (timelockThreshold cfg < amt ->
       let unlockTime := now + timelockSeconds cfg * 1000 in
       transactions s' !! newId = Some (set_lockedUntil unlockTime (set_status LOCKED t)) /\
       timelock_heap s'
         = ZSet.zadd (inject_Z (unlockTime / 1000)) newId (timelock_heap s) /\
       In newId (ZSet.members (timelock_heap s')) /\
       priority_queue s' = priority_queue s) /\
    (amt <= timelockThreshold cfg ->
       transactions s' !! newId = Some (set_status QUEUED t) /\
       priority_queue s'
         = ZSet.zadd
             (- QueueService.calculateEffectivePriority cfg (basePriority t) created now)%Q
             newId (priority_queue s) /\
       In newId (ZSet.members (priority_queue s')) /\
       timelock_heap s' = timelock_heap s) /\
    (forall (threshold' : Z) (id : string) (now0 : Z) (clock : string -> Z) (s0 : State),
       reserveFunds id (with_timelockThreshold threshold' cfg) now0 s0
         = reserveFunds id cfg now0 s0 /\
       completeManual id (with_timelockThreshold threshold' cfg) now0 s0
         = completeManual id cfg now0 s0 /\
       TimelockService.processUnlocked (with_timelockThreshold threshold' cfg) now0 s0
         = TimelockService.processUnlocked cfg now0 s0 /\
       QueueService.updateAllPriorities (with_timelockThreshold threshold' cfg) clock s0
         = QueueService.updateAllPriorities cfg clock s0).
Proof.
  intros cfg from toNumber amt u newId created now s s' t H.
  unfold initiateTransfer, bind, ret, throw, Prisma.account_findUnique,
    Prisma.account_findByNumber, Prisma.transaction_create in H. simpl in H.
  destruct (accounts s !! from) as [fromAccount |]; [| discriminate].
  destruct (List.find _ (map_to_list (accounts s))) as [[k toAccount] |];
    simpl in H; [| discriminate].
  destruct (String.eqb (acc_id fromAccount) (acc_id toAccount)); [discriminate |].
  destruct (availableAfterReserve cfg fromAccount <? amt); [discriminate |].
  destruct (Z.ltb_spec (timelockThreshold cfg) amt) as [Hgt | Hle].
  - unfold TimelockService.lockTransaction, bind, ret, Prisma.transaction_update in H.
    simpl in H. rewrite lookup_insert_eq in H. simpl in H.
    injection H as <- <-. simpl.
    split; [auto |]. split; [intros _ | split; [intros Hc; lia |]].
    + split; [apply lookup_insert_eq |]. split; [reflexivity |].
      split; [apply zadd_member | reflexivity].
    + intros. apply threshold_read_at_admission_only.
  - unfold QueueService.enqueue, bind, ret, Prisma.transaction_update in H.
    simpl in H. rewrite lookup_insert_eq in H. simpl in H.
    injection H as <- <-. simpl.
    split; [auto |]. split; [intros Hc; lia | split; [intros _ |]].
    + split; [apply lookup_insert_eq |]. split; [reflexivity |].
      split; [apply zadd_member | reflexivity].
    + intros. apply threshold_read_at_admission_only.
Qed.

(** C6 on values: 15000 is locked until 30 s, 500 is queued, and exactly
    10000 is queued as well. *)
Lemma initiateTransfer_admission_witness :
  transactions Scenario.afterLocked !! "d4f0" = Some Scenario.txLocked /\
  transactions Scenario.afterFirst !! "b7e1" = Some Scenario.txFirst /\
  transactions Scenario.afterThreshold !! "e5a1"
    = Some (set_status QUEUED Scenario.txThreshold).
Proof.
  split; [| split].
  - pose proof (initiateTransfer_admission defaultConfig "X" "1002" (rupees 15000) NORMAL
                  "d4f0" 0 0 (initialState Scenario.bank) Scenario.afterLocked
                  Scenario.txLockedCreated
                  ltac:(vm_compute; reflexivity)) as (_ & H & _).
    specialize (H ltac:(vm_compute; reflexivity)). cbv zeta in H.
    destruct H as (H & _). exact H.
  - pose proof (initiateTransfer_admission defaultConfig "X" "1002" (rupees 500) NORMAL
                  "b7e1" 0 0 (initialState Scenario.bank) Scenario.afterFirst
                  (set_status CREATED Scenario.txFirst)
                  ltac:(vm_compute; reflexivity)) as (_ & _ & H & _).
    specialize (H ltac:(vm_compute; discriminate)).
    destruct H as (H & _). exact H.
  - pose proof (initiateTransfer_admission defaultConfig "X" "1002" (rupees 10000) EMI
                  "e5a1" 0 0 (initialState Scenario.bank) Scenario.afterThreshold
                  Scenario.txThreshold
                  ltac:(vm_compute; reflexivity)) as (_ & _ & H & _).
    specialize (H ltac:(vm_compute; discriminate)).
    destruct H as (H & _). exact H.
Defined.

End Admission.

Section Cancellation.

Import TransactionService Controllers.

(** The customer route on a LOCKED transaction of the caller that is
    held in the time-lock set. *)
Lemma customerCancel_locked userId id s t src :
  transactions s !! id = Some t ->
  fromAccountId t = userId ->
  status t = LOCKED ->
  In id (ZSet.members (timelock_heap s)) ->
  accounts s !! userId = Some src ->
  customerCancel userId id s =
    (Json 200 "Time-locked transaction cancelled successfully",
     mkState
       (<[userId := set_reservedAmount (reservedAmount src - amount t) src]> (accounts s))
       (<[id := set_status CANCELLED t]> (transactions s))
       (ledger s) (priority_queue s)
       (ZSet.zrem id (timelock_heap s)) (txn_data s)).
Proof.
  intros Ht Hu Hst Hin Hsrc.
  unfold customerCancel, route, getById, TimelockService.cancelLocked, bind, ret,
    Prisma.transaction_findUnique, Prisma.transaction_update, Prisma.account_update.
  simpl. rewrite Ht, Hu, String.eqb_refl, Hst. simpl.
  apply zrem_count_pos, Z.ltb_lt in Hin. rewrite Hin. simpl.
  rewrite Ht. simpl. rewrite Hsrc. reflexivity.
Qed.

(** The customer route refuses whatever is not LOCKED and changes
    nothing. *)
Lemma customerCancel_not_locked userId id s t :
  transactions s !! id = Some t ->
  fromAccountId t = userId ->
  status t <> LOCKED ->
  customerCancel userId id s
    = (Json 400 "Only time-locked transactions can be cancelled", s).
Proof.
  intros Ht Hu Hst.
  unfold customerCancel, route, getById, bind, ret, Prisma.transaction_findUnique.
  simpl. rewrite Ht, Hu, String.eqb_refl. simpl.
  rewrite bool_decide_eq_false_2 by exact Hst. reflexivity.
Qed.

(** [rollback] on a transaction that is not RESERVED: no guard on the
    status, the transaction is marked CANCELLED. *)
Lemma rollback_not_reserved id reason s t :
  transactions s !! id = Some t ->
  status t <> RESERVED ->
  rollback id reason s =
    (Returned true,
     mkState (accounts s)
       (<[id := set_failureReason reason (set_status CANCELLED t)]> (transactions s))
       (ledger s) (ZSet.zrem id (priority_queue s)) (timelock_heap s)
       (delete id (txn_data s))).
Proof.
  intros Ht Hst.
  unfold rollback, prisma_transaction, bind, ret, Prisma.transaction_findUnique,
    Prisma.transaction_update, QueueService.dequeue.
  simpl. rewrite Ht. rewrite bool_decide_eq_false_2 by exact Hst.
  simpl. rewrite Ht. reflexivity.
Qed.

(** C2, on the code.  X holds 20000 with nothing reserved and sends 15000,
    which is LOCKED; creating and locking the transfer reserves nothing.
    The owner cancels: the id leaves the time-lock set and the transaction
    is CANCELLED, but the reserved amount of X is decremented by the amount
    and ends at -15000 instead of the 0 it had before the transfer. *)
Theorem customerCancel_locked_decrements_unreserved :
  reservedAmount <$> accounts (initialState Scenario.bank) !! "X" = Some 0 /\
  reservedAmount <$> accounts Scenario.afterLocked !! "X" = Some 0 /\
  transactions Scenario.afterLocked !! "d4f0" = Some Scenario.txLocked /\
  (customerCancel "X" "d4f0" Scenario.afterLocked).1
    = Json 200 "Time-locked transaction cancelled successfully" /\
  timelock_heap (customerCancel "X" "d4f0" Scenario.afterLocked).2 = [] /\
  status <$> transactions (customerCancel "X" "d4f0" Scenario.afterLocked).2 !! "d4f0"
    = Some CANCELLED /\
  reservedAmount <$> accounts (customerCancel "X" "d4f0" Scenario.afterLocked).2 !! "X"
    = Some (- rupees 15000).
Proof. repeat split; vm_compute; reflexivity. Qed.

(** C3, on the code.  The transfer b7e1 is COMPLETED; the admin route
    cancels it all the same: the answer is 200 and the transaction is
    marked CANCELLED (accounts and ledger stay as they were), where the
    customer route answers 400 and changes nothing. *)
Theorem adminCancel_completed_marks_cancelled :
  status <$> transactions Scenario.completedFirst !! "b7e1" = Some COMPLETED /\
  (adminCancel "b7e1" None Scenario.completedFirst).1 = Json 200 "Transaction cancelled" /\
  status <$> transactions (adminCancel "b7e1" None Scenario.completedFirst).2 !! "b7e1"
    = Some CANCELLED /\
  accounts (adminCancel "b7e1" None Scenario.completedFirst).2
    = accounts Scenario.completedFirst /\
  ledger (adminCancel "b7e1" None Scenario.completedFirst).2
    = ledger Scenario.completedFirst /\
  customerCancel "X" "b7e1" Scenario.completedFirst
    = (Json 400 "Only time-locked transactions can be cancelled", Scenario.completedFirst).
Proof. repeat split; vm_compute; reflexivity. Qed.

End Cancellation.

(** * More on the sorted sets: membership, removal, re-insertion *)

Section SortedSetAlgebra.

Import ZSet.

Lemma In_place_iff (e x : string * Q) l : In x (place e l) <-> x = e \/ In x l.
Proof.
  induction l as [|y l IH]; simpl.
  - intuition congruence.
  - destruct (entry_ltb e y); simpl; [intuition congruence |].
    rewrite IH. intuition congruence.
Qed.

Lemma zrem_In (x : string * Q) member l : In x (zrem member l) <-> x.1 <> member /\ In x l.
Proof.
  unfold zrem. rewrite <- !list_elem_of_In, list_elem_of_filter. reflexivity.
Qed.

Lemma zadd_In (x : string * Q) score member l :
  In x (zadd score member l) <-> x = (member, score) \/ (x.1 <> member /\ In x l).
Proof. unfold zadd. rewrite In_place_iff, zrem_In. reflexivity. Qed.

Lemma members_In member (l : list (string * Q)) :
  In member (members l) <-> exists score, In (member, score) l.
Proof.
  unfold members. rewrite in_map_iff. split.
  - intros ([m sc] & Hm & Hin). simpl in Hm. subst. eauto.
  - intros [sc Hin]. exists (member, sc). auto.
Qed.

Lemma zadd_members k score member l :
  In k (members (zadd score member l)) <-> k = member \/ In k (members l).
Proof.
  rewrite !members_In. split.
  - intros [sc H]. apply zadd_In in H as [H | [Hne H]].
    + left. congruence.
    + right. eauto.
  - intros [-> | [sc H]].
    + exists score. apply zadd_In. now left.
    + destruct (decide (k = member)) as [-> | Hne].
      * exists score. apply zadd_In. now left.
      * exists sc. apply zadd_In. right. auto.
Qed.

Lemma zrem_members_iff k member l :
  In k (members (zrem member l)) <-> k <> member /\ In k (members l).
Proof.
  rewrite !members_In. split.
  - intros [sc H]. apply zrem_In in H as [Hne H]. eauto.
  - intros [Hne [sc H]]. exists sc. apply zrem_In. auto.
Qed.

Lemma zrem_idem member l : zrem member (zrem member l) = zrem member l.
Proof.
  apply zrem_absent. intros H. apply zrem_members_iff in H. tauto.
Qed.

Lemma zrem_place member score l : zrem member (place (member, score) l) = zrem member l.
Proof.
  unfold zrem. induction l as [|y l IH]; simpl.
  - rewrite filter_cons. simpl. destruct (decide (member <> member)); [congruence | reflexivity].
  - destruct (entry_ltb (member, score) y).
    + rewrite filter_cons. simpl.
      destruct (decide (member <> member)); [congruence | reflexivity].
    + rewrite !(filter_cons _ y). destruct (decide (y.1 <> member)); [f_equal |]; exact IH.
Qed.

Lemma zrem_zadd score member l : zrem member (zadd score member l) = zrem member l.
Proof. unfold zadd. rewrite zrem_place. apply zrem_idem. Qed.

Lemma zrem_comm m1 m2 l : zrem m1 (zrem m2 l) = zrem m2 (zrem m1 l).
Proof.
  unfold zrem. induction l as [|y l IH]; [reflexivity |].
  rewrite !(filter_cons _ y).
  destruct (decide (y.1 <> m2)), (decide (y.1 <> m1)); rewrite ?filter_cons;
    repeat case_decide; try contradiction; congruence.
Qed.

Lemma members_place e l : Permutation (members (place e l)) (e.1 :: members l).
Proof.
  unfold members. induction l as [|y l IH]; simpl; [reflexivity |].
  destruct (entry_ltb e y); simpl; [reflexivity |].
  rewrite IH. apply perm_swap.
Qed.

Lemma zrem_NoDup member l : NoDup (members l) -> NoDup (members (zrem member l)).
Proof.
  unfold members, zrem. induction l as [|y l IH]; intros H; [constructor |].
  simpl in H. apply NoDup_cons in H as [Hy H].
  rewrite filter_cons. destruct (decide (y.1 <> member)); [| auto].
  simpl. apply NoDup_cons. split; [| auto].
  intros Hin. apply Hy. apply list_elem_of_In in Hin. apply list_elem_of_In.
  apply (zrem_members_iff (y.1) member l) in Hin. tauto.
Qed.

Lemma zadd_NoDup score member l : NoDup (members l) -> NoDup (members (zadd score member l)).
Proof.
  intros H. unfold zadd. rewrite members_place. simpl. apply NoDup_cons. split.
  - intros Hin. apply list_elem_of_In in Hin. apply zrem_members_iff in Hin. tauto.
  - now apply zrem_NoDup.
Qed.

End SortedSetAlgebra.

(** * The priority queue as a keyed set *)

Section QueueKeyedSet.

Import QueueService.

(** X1.  [enqueue] then [dequeue] of the same id is [dequeue]: the queue and the
    cached metadata of the other ids are what they were, and when the id was
    in neither the state is back where it started. *)
Theorem dequeue_after_enqueue :
  forall (cfg : Config) (id : string) (p : Q) (c now : Z) (s : State),
    dequeue id (enqueue cfg id p c now s).2 = dequeue id s /\
    (~ In id (ZSet.members (priority_queue s)) -> txn_data s !! id = None ->
     (dequeue id (enqueue cfg id p c now s).2).2 = s).
Proof.
  intros cfg id p c now s. unfold dequeue, enqueue. simpl.
  rewrite zrem_zadd, delete_insert_eq. split; [reflexivity |].
  intros Hq Hd. rewrite zrem_absent by exact Hq. rewrite delete_id by exact Hd.
  destruct s; reflexivity.
Qed.

(** X2.  After [enqueue] the id is in the queue exactly once, with the negated
    effective priority computed at that moment as its score and its base
    priority and creation time cached; the entries of the other ids are
    kept, and a queue without repeated ids stays so. *)
Theorem enqueue_sets_rank :
  forall (cfg : Config) (id : string) (p : Q) (c now : Z) (s : State),
    let s' := (enqueue cfg id p c now s).2 in
    (forall x : string * Q, x.1 = id ->
       (In x (priority_queue s') <->
        x = (id, (- calculateEffectivePriority cfg p c now)%Q))) /\
    (forall x : string * Q, x.1 <> id ->
       (In x (priority_queue s') <-> In x (priority_queue s))) /\
    txn_data s' !! id = Some (p, c) /\
    (NoDup (ZSet.members (priority_queue s)) -> NoDup (ZSet.members (priority_queue s'))).
Proof.
  intros cfg id p c now s s'. unfold s', enqueue. simpl.
  split; [| split; [| split]].
  - intros x Hx. rewrite zadd_In. split; [intros [H | [H _]]; [exact H | contradiction] | auto].
  - intros x Hx. rewrite zadd_In. split; [intros [-> | [_ H]]; [contradiction | exact H] | auto].
  - apply lookup_insert_eq.
  - apply zadd_NoDup.
Qed.

End QueueKeyedSet.

(** * The Redis keys agree along every run *)

(** Goes through a promise for an invariant: [rb] is its closure under a
    rolled-back transaction, [leaf] closes the calls. *)
Ltac walk rb leaf :=
  repeat first
    [ apply preserves_ret
    | apply preserves_throw
    | apply preserves_prisma_transaction; [exact rb |]
    | apply preserves_bind; [| intros ?]
    | assumption
    | leaf
    | match goal with
      | |- preserves _ (match ?x with _ => _ end) => destruct x
      end ].

Section RedisKeys.

Lemma redis_keys_rollback_closed : rollback_closed redis_keys_ok.
Proof. intros s s' _ H. exact H. Qed.

Lemma preserves_keys_unchanged {A} (c : M A) :
  (forall s, priority_queue (c s).2 = priority_queue s /\
             timelock_heap (c s).2 = timelock_heap s /\
             txn_data (c s).2 = txn_data s) ->
  preserves redis_keys_ok c.
Proof.
  intros Hc s H. destruct (Hc s) as (E1 & E2 & E3). unfold redis_keys_ok.
  rewrite E1, E2, E3. exact H.
Qed.

Lemma preserves_keys_account_update id f : preserves redis_keys_ok (Prisma.account_update id f).
Proof.
  apply preserves_keys_unchanged. intros s. unfold Prisma.account_update.
  destruct (accounts s !! id); auto.
Qed.

Lemma preserves_keys_transaction_update id f :
  preserves redis_keys_ok (Prisma.transaction_update id f).
Proof.
  apply preserves_keys_unchanged. intros s. unfold Prisma.transaction_update.
  destruct (transactions s !! id); auto.
Qed.

Lemma preserves_keys_enqueue cfg id p c now :
  preserves redis_keys_ok (QueueService.enqueue cfg id p c now).
Proof.
  intros s (Hq & Hh & Hd). unfold QueueService.enqueue, redis_keys_ok. simpl.
  split; [now apply zadd_NoDup |]. split; [exact Hh |].
  intros k. rewrite zadd_members, lookup_insert_is_Some, Hd.
  destruct (decide (id = k)); intuition congruence.
Qed.

Lemma preserves_keys_dequeue id : preserves redis_keys_ok (QueueService.dequeue id).
Proof.
  intros s (Hq & Hh & Hd). unfold QueueService.dequeue, redis_keys_ok. simpl.
  split; [now apply zrem_NoDup |]. split; [exact Hh |].
  intros k. rewrite zrem_members_iff, lookup_delete_is_Some, Hd. intuition congruence.
Qed.

Lemma preserves_keys_heap_zadd {A} (a : A) score id :
  preserves redis_keys_ok
    (fun s => (Returned a, with_timelock_heap (ZSet.zadd score id (timelock_heap s)) s)).
Proof.
  intros s (Hq & Hh & Hd). unfold redis_keys_ok. simpl.
  split; [exact Hq |]. split; [now apply zadd_NoDup | exact Hd].
Qed.

Lemma preserves_keys_heap_zrem {A} (a : State -> A) id :
  preserves redis_keys_ok
    (fun s => (Returned (a s), with_timelock_heap (ZSet.zrem id (timelock_heap s)) s)).
Proof.
  intros s (Hq & Hh & Hd). unfold redis_keys_ok. simpl.
  split; [exact Hq |]. split; [now apply zrem_NoDup | exact Hd].
Qed.

Lemma zrange_all (l : list (string * Q)) : ZSet.zrange 0 (-1) l = l.
Proof.
  unfold ZSet.zrange.
  change (0 <? 0) with false. change (-1 <? 0) with true. cbv iota.
  destruct l as [|x l]; [reflexivity |].
  set (n := Z.of_nat (length (x :: l))).
  assert (Hn : 1 <= n) by (unfold n; simpl; lia).
  destruct (Z.ltb_spec (n + -1) 0); [lia |].
  destruct (Z.leb_spec n 0); [lia |]. cbv iota. simpl orb. cbv iota.
  replace (Z.to_nat (n + -1 - 0 + 1)) with (length (x :: l)) by (unfold n; lia).
  change (Z.to_nat 0) with 0%nat. rewrite drop_0. apply firstn_all.
Qed.

(** The loop of [updateAllPriorities] over ids that are in the queue. *)
Lemma updateAll_fold cfg now data (ms : list string) (acc : list (string * Q) * Z) :
  (forall m, In m ms -> In m (ZSet.members acc.1)) ->
  NoDup (ZSet.members acc.1) ->
  let r := fold_left (fun acc txId => QueueService.updateOne cfg now txId acc data) ms acc in
  NoDup (ZSet.members r.1) /\
  (forall k, In k (ZSet.members r.1) <-> In k (ZSet.members acc.1)).
Proof.
  revert acc. induction ms as [|m ms IH]; intros acc Hin Hnd; simpl; [tauto |].
  assert (Hstep : NoDup (ZSet.members (QueueService.updateOne cfg now m acc data).1) /\
                  forall k, In k (ZSet.members (QueueService.updateOne cfg now m acc data).1)
                            <-> In k (ZSet.members acc.1)).
  { unfold QueueService.updateOne. destruct (data !! m) as [[p c] |]; [| tauto]. simpl.
    split; [now apply zadd_NoDup |].
    intros k. rewrite zadd_members. specialize (Hin m (or_introl eq_refl)).
    intuition congruence. }
  destruct Hstep as [Hnd' Hiff].
  destruct (IH (QueueService.updateOne cfg now m acc data)) as [H1 H2].
  - intros k Hk. apply Hiff. apply Hin. now right.
  - exact Hnd'.
  - split; [exact H1 |]. intros k. rewrite H2. apply Hiff.
Qed.

Lemma preserves_keys_updateAllPriorities cfg now :
  preserves redis_keys_ok (QueueService.updateAllPriorities cfg now).
Proof.
  intros s (Hq & Hh & Hd). unfold QueueService.updateAllPriorities, redis_keys_ok. simpl.
  rewrite zrange_all.
  destruct (updateAll_fold cfg now (txn_data s) (ZSet.members (priority_queue s))
              (priority_queue s, 0)) as [H1 H2]; simpl; auto.
  split; [exact H1 |]. split; [exact Hh |].
  intros k. rewrite H2. apply Hd.
Qed.

Ltac keys_leaf :=
  first
    [ apply preserves_keys_account_update
    | apply preserves_keys_transaction_update
    | apply preserves_keys_enqueue
    | apply preserves_keys_dequeue
    | apply preserves_keys_heap_zadd
    | apply (preserves_keys_heap_zrem (fun _ => tt))
    | apply preserves_keys_unchanged; intros; repeat split; reflexivity ].

Ltac keys := walk redis_keys_rollback_closed keys_leaf.

Lemma preserves_keys_lockTransaction cfg id now :
  preserves redis_keys_ok (TimelockService.lockTransaction cfg id now).
Proof. unfold TimelockService.lockTransaction. keys. Qed.

Lemma preserves_keys_moveToQueue cfg id now :
  preserves redis_keys_ok (TimelockService.moveToQueue cfg id now).
Proof. unfold TimelockService.moveToQueue. keys. Qed.

Lemma preserves_keys_moveAll cfg now l :
  preserves redis_keys_ok (TimelockService.moveAll cfg now l).
Proof.
  induction l as [|x l IH]; simpl; [apply preserves_ret |].
  apply preserves_bind; [apply preserves_keys_moveToQueue | intros _; exact IH].
Qed.

Lemma preserves_keys_processUnlocked cfg now :
  preserves redis_keys_ok (TimelockService.processUnlocked cfg now).
Proof.
  unfold TimelockService.processUnlocked.
  apply preserves_bind; [keys | intros l].
  apply preserves_bind; [apply preserves_keys_moveAll | intros _; apply preserves_ret].
Qed.

Lemma preserves_keys_cancelLocked id :
  preserves redis_keys_ok (TimelockService.cancelLocked id).
Proof.
  unfold TimelockService.cancelLocked.
  apply preserves_bind; [apply (preserves_keys_heap_zrem (fun s => ZSet.zrem_count id (timelock_heap s))) | intros r].
  keys.
Qed.

Lemma preserves_keys_initiateTransfer cfg from toNumber amt u newId created now :
  preserves redis_keys_ok
    (TransactionService.initiateTransfer cfg from toNumber amt u newId created now).
Proof.
  pose proof (preserves_keys_lockTransaction cfg).
  unfold TransactionService.initiateTransfer. keys.
Qed.

Lemma preserves_keys_reserveFunds id cfg now :
  preserves redis_keys_ok (TransactionService.reserveFunds id cfg now).
Proof. unfold TransactionService.reserveFunds. keys. Qed.

Lemma preserves_keys_finalize id now :
  preserves redis_keys_ok (TransactionService.finalize id now).
Proof. unfold TransactionService.finalize. keys. Qed.

Lemma preserves_keys_rollback id reason :
  preserves redis_keys_ok (TransactionService.rollback id reason).
Proof. unfold TransactionService.rollback. keys. Qed.

Lemma preserves_keys_completeManual id cfg now :
  preserves redis_keys_ok (TransactionService.completeManual id cfg now).
Proof.
  pose proof (preserves_keys_reserveFunds id cfg now).
  pose proof (preserves_keys_finalize id now).
  unfold TransactionService.completeManual. keys.
Qed.

Lemma step_redis_keys_ok cfg s s' : step cfg s s' -> redis_keys_ok s -> redis_keys_ok s'.
Proof.
  intros Hstep H. destruct Hstep.
  - exact H.
  - now apply preserves_keys_initiateTransfer.
  - now apply preserves_keys_reserveFunds.
  - now apply preserves_keys_finalize.
  - now apply preserves_keys_rollback.
  - now apply preserves_keys_completeManual.
  - now apply preserves_keys_processUnlocked.
  - now apply preserves_keys_updateAllPriorities.
  - unfold Controllers.customerCancel. apply preserves_route; [| exact H].
    pose proof (preserves_keys_cancelLocked id).
    unfold TransactionService.getById. keys.
  - unfold Controllers.adminCancel. apply preserves_route; [| exact H].
    pose proof (preserves_keys_rollback id (Controllers.reasonOrDefault reason)).
    keys.
Qed.

Lemma reachable_keys_agree (cfg : Config) (accs : gmap string Account) (s : State) :
  reachable cfg accs s -> redis_keys_ok s.
Proof.
  induction 1 as [| s s' _ IH Hstep].
  - unfold redis_keys_ok, initialState. simpl. split; [constructor |]. split; [constructor |].
    intros id. rewrite lookup_empty. split; [contradiction | intros [x Hx]; discriminate].
  - eapply step_redis_keys_ok; eauto.
Qed.

(** X3.  In every state of a run, no id is twice in the priority queue or in
    the time-lock set, and an id is in the priority queue exactly when its
    base priority and creation time are cached beside it. *)
Theorem reachable_redis_keys_ok :
  forall (cfg : Config) (accs : gmap string Account) (s : State),
    reachable cfg accs s -> redis_keys_ok s.
Proof. exact reachable_keys_agree. Qed.

Lemma reachable_redis_keys_ok_witness : redis_keys_ok Scenario.afterAging.
Proof.
  exact (reachable_redis_keys_ok defaultConfig Scenario.bank Scenario.afterAging
           afterAging_reachable).
Defined.

End RedisKeys.

(** * Reading and re-ranking the priority queue *)

Section QueueReads.

Import QueueService.

Lemma zrange_prefix (count : Z) (l : list (string * Q)) :
  1 <= count -> ZSet.zrange 0 (count - 1) l = take (Z.to_nat count) l.
Proof.
  intros Hc. unfold ZSet.zrange.
  change (0 <? 0) with false. cbv iota.
  destruct (Z.ltb_spec (count - 1) 0); [lia |].
  set (n := Z.of_nat (length l)).
  destruct (Z.ltb_spec (Z.min (count - 1) (n - 1)) 0) as [Hneg | Hpos].
  - assert (Hl : length l = 0%nat) by (unfold n in Hneg; lia).
    destruct l; [| discriminate]. simpl. now rewrite take_nil.
  - destruct (Z.leb_spec n 0); [lia |]. simpl orb. cbv iota.
    change (Z.to_nat 0) with 0%nat. rewrite drop_0.
    destruct (Z.le_gt_cases count n) as [Hle | Hgt].
    + f_equal. lia.
    + rewrite !take_ge; [reflexivity | |]; unfold n in *; lia.
Qed.

(** X4.  [getTop] does not change the state.  For a count of at least one it
    returns the first [count] entries of the queue in rank order (all of them
    when there are fewer); for a count of zero, [ZRANGE 0 -1] returns the
    whole queue. *)
Theorem getTop_prefix :
  forall (count : Z) (s : State),
    (getTop count s).2 = s /\
    (1 <= count ->
       (getTop count s).1 = Returned (take (Z.to_nat count) (priority_queue s))) /\
    (count = 0 -> (getTop count s).1 = Returned (priority_queue s)).
Proof.
  intros count s. unfold getTop. simpl. split; [reflexivity |]. split.
  - intros Hc. now rewrite zrange_prefix.
  - intros ->. simpl. now rewrite zrange_all.
Qed.

Lemma getTop_prefix_witness :
  (getTop 1 Scenario.afterAging).1 = Returned [("a3c9", (-2.0000)%Q)] /\
  (getTop 0 Scenario.afterAging).1
    = Returned [("a3c9", (-2.0000)%Q); ("b7e1", (-2.0000)%Q)].
Proof.
  destruct (getTop_prefix 1 Scenario.afterAging) as (_ & H1 & _).
  destruct (getTop_prefix 0 Scenario.afterAging) as (_ & _ & H0).
  split.
  - rewrite H1 by lia. vm_compute. reflexivity.
  - rewrite H0 by reflexivity. vm_compute. reflexivity.
Defined.

(** X5.  [popTop] only looks: the state is unchanged.  It returns nothing
    exactly when the queue is empty; in a queue in rank order the id it
    returns has the lowest score, that is the highest effective priority
    last computed, of all members. *)
Theorem popTop_peeks_highest :
  forall (s : State),
    (popTop s).2 = s /\
    ((popTop s).1 = Returned None <-> priority_queue s = []) /\
    (queue_ranked s ->
     forall id, (popTop s).1 = Returned (Some id) ->
       exists score, In (id, score) (priority_queue s) /\
         forall (m : string) (x : Q), In (m, x) (priority_queue s) -> (score <= x)%Q).
Proof.
  intros s. unfold popTop. simpl. rewrite (zrange_prefix 1) by lia.
  split; [reflexivity |]. destruct (priority_queue s) as [|[m0 x0] l] eqn:Hq; simpl.
  - split; [tauto |]. intros _ id H. discriminate.
  - split; [split; discriminate |].
    intros Hr id H. injection H as <-. exists x0. split; [now left |].
    intros m x [Heq | Hin].
    + injection Heq as _ <-. lra.
    + unfold queue_ranked, ZSet.well_ranked in Hr. rewrite Hq in Hr.
      apply StronglySorted_inv in Hr as [_ Hall].
      rewrite Forall_forall in Hall. apply list_elem_of_In in Hin.
      destruct (Hall _ Hin) as [Hlt | [Heq _]]; simpl in *; lra.
Qed.

Lemma popTop_peeks_highest_witness :
  exists score, In ("a3c9", score) (priority_queue Scenario.afterAging) /\
    forall (m : string) (x : Q),
      In (m, x) (priority_queue Scenario.afterAging) -> (score <= x)%Q.
Proof.
  destruct (popTop_peeks_highest Scenario.afterAging) as (_ & _ & H).
  apply H.
  - exact (reachable_queue_ranked _ _ _ afterAging_reachable).
  - vm_compute. reflexivity.
Defined.

(** The loop of [updateAllPriorities] over distinct ids with cached
    metadata: every id of the list gets its new score, the other entries
    stay, and the counter grows by the length of the list. *)
Lemma updateAll_fold_scores cfg now data (ms : list string) (acc : list (string * Q) * Z) :
  NoDup ms ->
  (forall m, In m ms -> is_Some (data !! m)) ->
  let r := fold_left (fun acc txId => updateOne cfg now txId acc data) ms acc in
  r.2 = acc.2 + Z.of_nat (length ms) /\
  forall (k : string) (x : Q),
    In (k, x) r.1 <->
    (In k ms /\ exists p c, data !! k = Some (p, c) /\
                  x = (- calculateEffectivePriority cfg p c (now k))%Q) \/
    (~ In k ms /\ In (k, x) acc.1).
Proof.
  revert acc. induction ms as [|m ms IH]; intros acc Hnd Hdata; simpl.
  - split; [lia |]. intros k x. tauto.
  - apply NoDup_cons in Hnd as [Hm Hnd]. rewrite list_elem_of_In in Hm.
    destruct (Hdata m (or_introl eq_refl)) as [[p c] Hpc].
    assert (E : updateOne cfg now m acc data
                = (ZSet.zadd (- calculateEffectivePriority cfg p c (now m))%Q m acc.1,
                   acc.2 + 1))
      by (unfold updateOne; rewrite Hpc; reflexivity).
    rewrite E.
    destruct (IH (ZSet.zadd (- calculateEffectivePriority cfg p c (now m))%Q m acc.1,
                  acc.2 + 1) Hnd) as [H1 H2].
    { intros k Hk. apply Hdata. now right. }
    simpl in H1, H2.
    split; [rewrite H1; lia |]. intros k x. rewrite H2, zadd_In. simpl.
    destruct (decide (k = m)) as [-> | Hne].
    + split.
      * intros [[Hin _] | [_ [Heq | [Hn _]]]]; [contradiction | | congruence].
        injection Heq as ->. left. split; [now left |]. eauto.
      * intros [[_ (p' & c' & Hd & ->)] | [Hn _]]; [| tauto].
        right. split; [exact Hm |]. left. congruence.
    + split.
      * intros [[Hin Hx] | [Hn [Heq | [_ Hin]]]]; [left; tauto | congruence |].
        right. split; [intros [? | ?]; congruence | exact Hin].
      * intros [[[? | Hin] Hx] | [Hn Hin]]; [congruence | left; tauto |].
        right. split; [tauto |]. right. tauto.
Qed.

(** X6.  When the Redis keys agree, the aging sweep re-ranks every member: it
    returns the size of the queue, the members are the same, each with the
    negated effective priority computed from its cached base priority and
    creation time at the clock reading of its turn, and nothing else in the
    state changes. *)
Theorem updateAllPriorities_reranks_all :
  forall (cfg : Config) (clock : string -> Z) (s : State),
    redis_keys_ok s ->
    let (r, s') := updateAllPriorities cfg clock s in
    r = Returned (ZSet.zcard (priority_queue s)) /\
    (forall (m : string) (x : Q),
       In (m, x) (priority_queue s') <->
       In m (ZSet.members (priority_queue s)) /\
       exists p c, txn_data s !! m = Some (p, c) /\
         x = (- calculateEffectivePriority cfg p c (clock m))%Q) /\
    accounts s' = accounts s /\ transactions s' = transactions s /\
    ledger s' = ledger s /\ timelock_heap s' = timelock_heap s /\
    txn_data s' = txn_data s.
Proof.
  intros cfg clock s (Hq & _ & Hd). unfold updateAllPriorities. simpl.
  rewrite zrange_all.
  destruct (updateAll_fold_scores cfg clock (txn_data s) (ZSet.members (priority_queue s))
              (priority_queue s, 0) Hq) as [H1 H2].
  { intros m Hm. now apply Hd. }
  simpl in H1, H2. split.
  - f_equal. rewrite H1. unfold ZSet.zcard, ZSet.members. rewrite length_fmap. lia.
  - split; [| auto 10]. intros m x. rewrite H2. split.
    + intros [H | [Hn Hin]]; [exact H |].
      exfalso. apply Hn. apply members_In. eauto.
    + intros H. now left.
Qed.

Lemma updateAllPriorities_reranks_all_witness :
  (updateAllPriorities defaultConfig (fun _ => 5000) Scenario.afterAging).1 = Returned 2 /\
  In ("b7e1", (- calculateEffectivePriority defaultConfig 2.000 0 5000)%Q)
     (priority_queue (updateAllPriorities defaultConfig (fun _ => 5000) Scenario.afterAging).2).
Proof.
  pose proof (updateAllPriorities_reranks_all defaultConfig (fun _ => 5000) Scenario.afterAging
                (reachable_keys_agree _ _ _ afterAging_reachable)) as H.
  destruct (updateAllPriorities defaultConfig (fun _ => 5000) Scenario.afterAging) as [r s'].
  destruct H as (Hr & Hs & _). split.
  - rewrite Hr. vm_compute. reflexivity.
  - simpl. apply Hs. split.
    + vm_compute. tauto.
    + exists 2.000%Q, 0. split; [vm_compute; reflexivity | reflexivity].
Defined.

(** X7.  [getStats] does not change the state and reports the sizes of the
    two sets and, as top items, the first five entries of the priority queue
    (all of them when there are fewer), each with its score negated back
    into a priority; in a queue in rank order they are listed from the
    highest effective priority down. *)
Theorem getStats_descending :
  forall (s : State) (st : Stats),
    queue_ranked s ->
    (getStats s).1 = Returned st ->
    (getStats s).2 = s /\
    queueSize st = Z.of_nat (length (priority_queue s)) /\
    timelockSize st = Z.of_nat (length (timelock_heap s)) /\
    topItems st
      = map (fun item : string * Q => (item.1, (- item.2)%Q)) (take 5 (priority_queue s)) /\
    (length (topItems st) <= 5)%nat /\
    forall (i j : nat) (a b : string * Q),
      (i < j)%nat -> topItems st !! i = Some a -> topItems st !! j = Some b ->
      (b.2 <= a.2)%Q.
Proof.
  intros s st Hr H. unfold getStats, bind, ret, getTop in H. simpl in H.
  rewrite (zrange_prefix 5) in H by lia. injection H as <-. simpl.
  split; [reflexivity |]. split; [reflexivity |]. split; [reflexivity |].
  split; [reflexivity |].
  split; [rewrite length_map, length_take; lia |].
  intros i j a b Hij Ha Hb.
  rewrite list_lookup_fmap in Ha, Hb.
  change (Z.to_nat 5) with 5%nat in Ha, Hb.
  destruct (take 5 (priority_queue s) !! i) as [a0 |] eqn:Ea; simpl in Ha; [| discriminate].
  destruct (take 5 (priority_queue s) !! j) as [b0 |] eqn:Eb; simpl in Hb; [| discriminate]. injection Ha as <-. injection Hb as <-. simpl.
  apply lookup_take_Some in Ea as [Ea _]. apply lookup_take_Some in Eb as [Eb _].
  destruct (well_ranked_lookup _ _ _ _ _ Hr Hij Ea Eb) as [Hlt | [Heq _]]; lra.
Qed.

Lemma getStats_descending_witness :
  exists st,
    (getStats Scenario.afterAging).1 = Returned st /\
    queueSize st = 2 /\
    topItems st = [("a3c9", 2.0000%Q); ("b7e1", 2.0000%Q)].
Proof.
  destruct (getStats Scenario.afterAging).1 as [st |] eqn:E; [| vm_compute in E; discriminate].
  destruct (getStats_descending Scenario.afterAging st
              (reachable_queue_ranked _ _ _ afterAging_reachable) E)
    as (_ & Hq & _ & Htop & _).
  exists st. split; [reflexivity |].
  split; [rewrite Hq | rewrite Htop]; vm_compute; reflexivity.
Defined.

End QueueReads.

(** * The time-lock set: holding, maturing, sweeping *)

Section TimeLock.

Import TimelockService.

Lemma div_1000_le_iff (a b : Z) : a <= b / 1000 <-> a * 1000 <= b.
Proof.
  split; intros H.
  - pose proof (Z.mul_div_le b 1000 ltac:(lia)). lia.
  - apply Z.div_le_lower_bound; lia.
Qed.

Lemma Qle_bool_inject_Z (a b : Z) : Qle_bool (inject_Z a) (inject_Z b) = true <-> a <= b.
Proof. rewrite Qle_bool_iff, <- Zle_Qle. reflexivity. Qed.

Lemma matured_In (id : string) (max : Q) (l : list (string * Q)) :
  In id (ZSet.members (ZSet.zrangebyscore_upto max l)) <->
  exists x, In (id, x) l /\ Qle_bool x max = true.
Proof.
  rewrite members_In. unfold ZSet.zrangebyscore_upto. split.
  - intros [x H]. apply list_elem_of_In, list_elem_of_filter in H as [H1 H2].
    exists x. split; [now apply list_elem_of_In | exact H1].
  - intros [x [H1 H2]]. exists x. apply list_elem_of_In, list_elem_of_filter.
    split; [exact H2 | now apply list_elem_of_In].
Qed.

Lemma lockTransaction_some cfg id now s t :
  transactions s !! id = Some t ->
  lockTransaction cfg id now s =
    (Returned (now + timelockSeconds cfg * 1000),
     mkState (accounts s)
       (<[id := set_lockedUntil (now + timelockSeconds cfg * 1000) (set_status LOCKED t)]>
          (transactions s))
       (ledger s) (priority_queue s)
       (ZSet.zadd (inject_Z ((now + timelockSeconds cfg * 1000) / 1000)) id (timelock_heap s))
       (txn_data s)).
Proof.
  intros Ht. unfold lockTransaction, bind, ret, Prisma.transaction_update. simpl.
  rewrite Ht. reflexivity.
Qed.

(** X8.  Holding and maturing.  After [lockTransaction] at [now], with
    unlock time U = now + timelockSeconds * 1000, the id is reported by
    [getUnlockedTransactions] at a later clock reading exactly when that
    reading has reached U rounded down to a whole second: never a full
    second before U, always from U on, and possibly up to 999 ms early. *)
Theorem lock_then_matured :
  forall (cfg : Config) (id : string) (now later : Z) (s : State) (t : Transaction),
    transactions s !! id = Some t ->
    let unlockTime := now + timelockSeconds cfg * 1000 in
    let s1 := (lockTransaction cfg id now s).2 in
    (lockTransaction cfg id now s).1 = Returned unlockTime /\
    exists matured,
      getUnlockedTransactions later s1 = (Returned matured, s1) /\
      (In id matured <-> unlockTime / 1000 * 1000 <= later) /\
      (unlockTime <= later -> In id matured) /\
      (later <= unlockTime - 1000 -> ~ In id matured).
Proof.
  intros cfg id now later s t Ht unlockTime s1. unfold s1.
  rewrite (lockTransaction_some cfg id now s t Ht). fold unlockTime. simpl.
  split; [reflexivity |]. eexists. split; [reflexivity |].
  assert (Hiff : In id (ZSet.members
                          (ZSet.zrangebyscore_upto (inject_Z (later / 1000))
                             (ZSet.zadd (inject_Z (unlockTime / 1000)) id (timelock_heap s))))
                 <-> unlockTime / 1000 * 1000 <= later).
  { rewrite matured_In. rewrite <- div_1000_le_iff. split.
    - intros [x [Hin Hle]]. apply zadd_In in Hin as [Heq | [Hne _]]; [| simpl in Hne; congruence].
      injection Heq as ->. now apply Qle_bool_inject_Z.
    - intros Hle. exists (inject_Z (unlockTime / 1000)). split.
      + apply zadd_In. now left.
      + now apply Qle_bool_inject_Z. }
  split; [exact Hiff |]. split.
  - intros Hle. apply Hiff. pose proof (Z.mul_div_le unlockTime 1000 ltac:(lia)). lia.
  - intros Hle Hin. apply Hiff in Hin.
    pose proof (Z.mod_pos_bound unlockTime 1000 ltac:(lia)).
    pose proof (Z.div_mod unlockTime 1000 ltac:(lia)). lia.
Qed.

Lemma lock_then_matured_witness :
  (lockTransaction defaultConfig "b7e1" 500 Scenario.afterFirst).1 = Returned 30500 /\
  exists matured,
    getUnlockedTransactions 30000
      (lockTransaction defaultConfig "b7e1" 500 Scenario.afterFirst).2
    = (Returned matured, (lockTransaction defaultConfig "b7e1" 500 Scenario.afterFirst).2) /\
    In "b7e1" matured.
Proof.
  destruct (lock_then_matured defaultConfig "b7e1" 500 30000 Scenario.afterFirst
              Scenario.txFirst ltac:(vm_compute; reflexivity))
    as (H1 & matured & H2 & H3 & _).
  split; [exact H1 |]. exists matured. split; [exact H2 |].
  apply H3. vm_compute. discriminate.
Defined.

Lemma Qfloor_inject_Z (z : Z) : Qfloor (inject_Z z) = z.
Proof. unfold Qfloor, inject_Z. apply Z.div_1_r. Qed.

(** X9.  The list of held transactions shows the unlock time of a transaction
    just locked rounded down to a whole second: at most 999 ms before the
    [lockedUntil] stored on the transaction, and the id is listed once. *)
Theorem getLockedTransactions_after_lock :
  forall (cfg : Config) (id : string) (now : Z) (s : State) (t : Transaction),
    transactions s !! id = Some t ->
    let unlockTime := now + timelockSeconds cfg * 1000 in
    let s1 := (lockTransaction cfg id now s).2 in
    exists items,
      getLockedTransactions s1 = (Returned items, s1) /\
      lockedUntil <$> transactions s1 !! id = Some (Some unlockTime) /\
      (forall u, In (id, u) items <-> u = unlockTime / 1000 * 1000) /\
      unlockTime - 1000 < unlockTime / 1000 * 1000 <= unlockTime.
Proof.
  intros cfg id now s t Ht unlockTime s1. unfold s1.
  rewrite (lockTransaction_some cfg id now s t Ht). fold unlockTime.
  unfold getLockedTransactions. simpl. rewrite zrange_all.
  eexists. split; [reflexivity |].
  split; [rewrite lookup_insert_eq; reflexivity |]. split.
  - intros u. rewrite in_map_iff. split.
    + intros ([m x] & Heq & Hin). simpl in Heq. injection Heq as -> <-.
      apply zadd_In in Hin as [Heq | [Hne _]]; [| simpl in Hne; congruence].
      injection Heq as ->. f_equal. apply Qfloor_inject_Z.
    + intros ->. exists (id, inject_Z (unlockTime / 1000)). split.
      * f_equal. f_equal. apply Qfloor_inject_Z.
      * apply zadd_In. now left.
  - pose proof (Z.mod_pos_bound unlockTime 1000 ltac:(lia)).
    pose proof (Z.div_mod unlockTime 1000 ltac:(lia)). lia.
Qed.

Lemma getLockedTransactions_after_lock_witness :
  exists items,
    getLockedTransactions (lockTransaction defaultConfig "b7e1" 500 Scenario.afterFirst).2
    = (Returned items, (lockTransaction defaultConfig "b7e1" 500 Scenario.afterFirst).2) /\
    In ("b7e1", 30000) items.
Proof.
  destruct (getLockedTransactions_after_lock defaultConfig "b7e1" 500 Scenario.afterFirst
              Scenario.txFirst ltac:(vm_compute; reflexivity))
    as (items & H1 & _ & H3 & _).
  exists items. split; [exact H1 |]. apply H3. vm_compute. reflexivity.
Defined.

(** X10.  [cancelLocked] answers whether the id was held.  When it was not,
    nothing changes; when it was, the id leaves the time-lock set and the
    transaction is marked CANCELLED, whatever its status was. *)
Theorem cancelLocked_contract :
  forall (id : string) (s : State),
    (~ In id (ZSet.members (timelock_heap s)) -> cancelLocked id s = (Returned false, s)) /\
    (In id (ZSet.members (timelock_heap s)) ->
     forall t, transactions s !! id = Some t ->
       cancelLocked id s =
         (Returned true,
          mkState (accounts s) (<[id := set_status CANCELLED t]> (transactions s))
            (ledger s) (priority_queue s) (ZSet.zrem id (timelock_heap s)) (txn_data s))).
Proof.
  intros id s. unfold cancelLocked, bind, ret, Prisma.transaction_update. simpl. split.
  - intros Hn. unfold ZSet.zrem_count. rewrite (zrem_absent _ _ Hn).
    rewrite Z.sub_diag. simpl. destruct s; reflexivity.
  - intros Hin t Ht. apply zrem_count_pos, Z.ltb_lt in Hin. rewrite Hin. simpl.
    rewrite Ht. reflexivity.
Qed.

Lemma cancelLocked_contract_witness :
  cancelLocked "b7e1" Scenario.afterFirst = (Returned false, Scenario.afterFirst) /\
  (cancelLocked "d4f0" Scenario.afterLocked).1 = Returned true.
Proof.
  split.
  - apply (cancelLocked_contract "b7e1" Scenario.afterFirst). vm_compute. tauto.
  - destruct (cancelLocked_contract "d4f0" Scenario.afterLocked) as [_ H].
    rewrite (H ltac:(vm_compute; tauto) Scenario.txLocked ltac:(vm_compute; reflexivity)).
    reflexivity.
Defined.

End TimeLock.

(** * The unlock sweep *)

Section UnlockSweep.

Import TimelockService.

Lemma moveToQueue_some cfg id now s t :
  transactions s !! id = Some t ->
  moveToQueue cfg id now s =
    (Returned tt,
     mkState (accounts s) (<[id := set_status PENDING_MANUAL t]> (transactions s))
       (ledger s)
       (ZSet.zadd
          (- QueueService.calculateEffectivePriority cfg (basePriority t) (createdAt t) now)%Q
          id (priority_queue s))
       (ZSet.zrem id (timelock_heap s))
       (<[id := (basePriority t, createdAt t)]> (txn_data s))).
Proof.
  intros Ht. unfold moveToQueue, bind, ret, Prisma.transaction_findUnique,
    Prisma.transaction_update, QueueService.enqueue. simpl.
  rewrite Ht. simpl. rewrite Ht. reflexivity.
Qed.

Lemma moveToQueue_none cfg id now s :
  transactions s !! id = None -> moveToQueue cfg id now s = (Returned tt, s).
Proof.
  intros Ht. unfold moveToQueue, bind, ret, Prisma.transaction_findUnique. simpl.
  rewrite Ht. reflexivity.
Qed.

(** The loop of the sweep over ids that all have a row. *)
Lemma moveAll_spec cfg now (ms : list string) :
  forall s,
    (forall id, In id ms -> is_Some (transactions s !! id)) ->
    exists s',
      moveAll cfg now ms s = (Returned tt, s') /\
      accounts s' = accounts s /\ ledger s' = ledger s /\
      (forall id, In id ms ->
         transactions s' !! id = set_status PENDING_MANUAL <$> transactions s !! id) /\
      (forall id, ~ In id ms -> transactions s' !! id = transactions s !! id) /\
      (forall e, In e (timelock_heap s') <-> In e (timelock_heap s) /\ ~ In e.1 ms) /\
      (forall k, In k (ZSet.members (priority_queue s')) <->
                 In k ms \/ In k (ZSet.members (priority_queue s))).
Proof.
  induction ms as [|x ms IH]; intros s Hrows.
  - exists s. simpl. repeat split; tauto.
  - destruct (Hrows x (or_introl eq_refl)) as [t Ht].
    simpl. unfold bind at 1. rewrite (moveToQueue_some cfg x now s t Ht).
    match goal with |- context [moveAll cfg now ms ?st] => set (s1 := st) end.
    destruct (IH s1) as (s' & Hrun & Ha & Hl & Hin & Hout & Hheap & Hq).
    { intros id Hid. unfold s1. simpl. apply lookup_insert_is_Some'. right.
      apply Hrows. now right. }
    exists s'. split; [exact Hrun |]. split; [exact Ha |]. split; [exact Hl |].
    unfold s1 in Hin, Hout, Hheap, Hq. simpl in Hin, Hout, Hheap, Hq.
    split; [| split; [| split]].
    + intros id Hid. destruct (in_dec string_dec id ms) as [Hms | Hms].
      * rewrite (Hin id Hms). destruct (decide (x = id)) as [<- | Hne].
        -- rewrite lookup_insert_eq, Ht. reflexivity.
        -- rewrite lookup_insert_ne by exact Hne. reflexivity.
      * rewrite (Hout id Hms). destruct Hid as [<- | Hid]; [| contradiction].
        rewrite lookup_insert_eq, Ht. reflexivity.
    + intros id Hid. rewrite Hout by tauto.
      apply lookup_insert_ne. intros <-. apply Hid. now left.
    + intros e. rewrite Hheap, zrem_In. intuition congruence.
    + intros k. rewrite Hq, zadd_members. intuition congruence.
Qed.

Lemma filter_none {A} (P : A -> Prop) `{forall x, Decision (P x)} (l : list A) :
  (forall x, In x l -> ~ P x) -> filter P l = [].
Proof.
  induction l as [|y l IH]; intros Hn; [reflexivity |].
  rewrite filter_cons. destruct (decide (P y)) as [Hy | _].
  - exfalso. apply (Hn y); [now left | exact Hy].
  - apply IH. intros x Hx. apply Hn. now right.
Qed.

Lemma processUnlocked_sweep_lemma :
  forall (cfg : Config) (now : Z) (s : State),
    held_have_rows s ->
    exists (matured : list string) (s' : State),
      getUnlockedTransactions now s = (Returned matured, s) /\
      processUnlocked cfg now s = (Returned (Z.of_nat (length matured)), s') /\
      getUnlockedTransactions now s' = (Returned [], s') /\
      (forall id, In id matured ->
         transactions s' !! id = set_status PENDING_MANUAL <$> transactions s !! id /\
         In id (ZSet.members (priority_queue s'))) /\
      (forall id, ~ In id matured -> transactions s' !! id = transactions s !! id) /\
      (forall e, In e (timelock_heap s') <-> In e (timelock_heap s) /\ ~ In e.1 matured) /\
      accounts s' = accounts s /\ ledger s' = ledger s.
Proof.
  intros cfg now s Hrows.
  set (matured := ZSet.members
                    (ZSet.zrangebyscore_upto (inject_Z (now / 1000)) (timelock_heap s))).
  destruct (moveAll_spec cfg now matured s)
    as (s' & Hrun & Ha & Hl & Hin & Hout & Hheap & Hq).
  { intros id Hid. apply Hrows. apply matured_In in Hid as [x [Hx _]].
    apply members_In. eauto. }
  exists matured, s'. split; [reflexivity |]. split.
  { unfold processUnlocked, bind, ret, getUnlockedTransactions. simpl.
    fold matured. rewrite Hrun. reflexivity. }
  split.
  { unfold getUnlockedTransactions. f_equal. f_equal.
    unfold ZSet.zrangebyscore_upto. rewrite filter_none; [reflexivity |].
    intros e He Hle. apply Hheap in He as [He Hn]. apply Hn.
    apply matured_In. exists e.2. destruct e. simpl in *. auto. }
  split; [| auto].
  intros id Hid. split; [now apply Hin | apply Hq; now left].
Qed.


(** X11.  The unlock sweep, when every held id has a transaction row.  It returns
    the number of matured ids; afterwards no matured id is left in the
    time-lock set, each of them is PENDING_MANUAL and a member of the
    priority queue, the entries that have not matured are still held, the
    other transactions are as they were, and accounts and ledger are
    untouched. *)
Theorem processUnlocked_sweeps_matured :
  forall (cfg : Config) (now : Z) (s : State),
    held_have_rows s ->
    exists (matured : list string) (s' : State),
      getUnlockedTransactions now s = (Returned matured, s) /\
      processUnlocked cfg now s = (Returned (Z.of_nat (length matured)), s') /\
      getUnlockedTransactions now s' = (Returned [], s') /\
      (forall id, In id matured ->
         transactions s' !! id = set_status PENDING_MANUAL <$> transactions s !! id /\
         In id (ZSet.members (priority_queue s'))) /\
      (forall id, ~ In id matured -> transactions s' !! id = transactions s !! id) /\
      (forall e, In e (timelock_heap s') <-> In e (timelock_heap s) /\ ~ In e.1 matured) /\
      accounts s' = accounts s /\ ledger s' = ledger s.
Proof. exact processUnlocked_sweep_lemma. Qed.

Lemma afterLocked_held_have_rows : held_have_rows Scenario.afterLocked.
Proof.
  intros id Hid. vm_compute in Hid. destruct Hid as [<- | []].
  vm_compute. eauto.
Qed.

Lemma processUnlocked_sweeps_matured_witness :
  (processUnlocked defaultConfig 30000 Scenario.afterLocked).1 = Returned 1 /\
  (processUnlocked defaultConfig 29999 Scenario.afterLocked).1 = Returned 0.
Proof.
  destruct (processUnlocked_sweeps_matured defaultConfig 30000 Scenario.afterLocked
              afterLocked_held_have_rows) as (m1 & s1 & G1 & P1 & _).
  destruct (processUnlocked_sweeps_matured defaultConfig 29999 Scenario.afterLocked
              afterLocked_held_have_rows) as (m0 & s0 & G0 & P0 & _).
  vm_compute in G1. injection G1 as <-. vm_compute in G0. injection G0 as <-.
  rewrite P1, P0. split; reflexivity.
Defined.

(** X12.  [rollback] never takes an id out of the time-lock set.  So a LOCKED
    transaction cancelled through [rollback] (the admin route) is still held,
    and the first unlock sweep at or after its unlock second makes it
    PENDING_MANUAL and puts it in the priority queue. *)
Theorem rollback_then_sweep_requeues :
  forall (cfg : Config) (id reason : string) (now : Z) (s : State) (t : Transaction) (x : Q),
    held_have_rows s ->
    transactions s !! id = Some t ->
    status t = LOCKED ->
    In (id, x) (timelock_heap s) ->
    Qle_bool x (inject_Z (now / 1000)) = true ->
    let s1 := (TransactionService.rollback id reason s).2 in
    let s2 := (processUnlocked cfg now s1).2 in
    status <$> transactions s1 !! id = Some CANCELLED /\
    timelock_heap s1 = timelock_heap s /\
    status <$> transactions s2 !! id = Some PENDING_MANUAL /\
    In id (ZSet.members (priority_queue s2)).
Proof.
  intros cfg id reason now s t x Hrows Ht Hst Hin Hle s1 s2.
  assert (Hr : TransactionService.rollback id reason s =
               (Returned true,
                mkState (accounts s)
                  (<[id := set_failureReason reason (set_status CANCELLED t)]> (transactions s))
                  (ledger s) (ZSet.zrem id (priority_queue s)) (timelock_heap s)
                  (delete id (txn_data s))))
    by (apply rollback_not_reserved; [exact Ht | rewrite Hst; discriminate]).
  unfold s2, s1. rewrite Hr. simpl.
  split; [rewrite lookup_insert_eq; reflexivity |]. split; [reflexivity |].
  match goal with |- context [processUnlocked cfg now ?st] => set (s1' := st) end.
  destruct (processUnlocked_sweep_lemma cfg now s1') as (matured & s' & G & P & _ & Hm & _).
  { intros k Hk. unfold s1'. simpl. apply lookup_insert_is_Some'. right. now apply Hrows. }
  rewrite P. simpl.
  assert (Hid : In id matured).
  { unfold getUnlockedTransactions in G. injection G as <-.
    apply matured_In. exists x. unfold s1'. simpl. auto. }
  destruct (Hm id Hid) as [Htx Hq]. split; [| exact Hq].
  rewrite Htx. unfold s1'. simpl. rewrite lookup_insert_eq. reflexivity.
Qed.

Lemma rollback_then_sweep_requeues_witness :
  status <$> transactions
    (processUnlocked defaultConfig 30000
       (TransactionService.rollback "d4f0" "Cancelled by admin" Scenario.afterLocked).2).2
    !! "d4f0" = Some PENDING_MANUAL.
Proof.
  apply (rollback_then_sweep_requeues defaultConfig "d4f0" "Cancelled by admin" 30000
           Scenario.afterLocked Scenario.txLocked (inject_Z 30)
           afterLocked_held_have_rows
           ltac:(vm_compute; reflexivity) ltac:(reflexivity)
           ltac:(vm_compute; tauto) ltac:(vm_compute; reflexivity)).
Defined.

End UnlockSweep.

(** * Admission, reservation and release *)

Section Reservation.

Import TransactionService.

Lemma initiateTransfer_reserves_nothing_lemma :
  forall (cfg : Config) (from toNumber : string) (amt : Z) (u : Urgency)
         (newId : string) (created now : Z) (s : State),
    let r := initiateTransfer cfg from toNumber amt u newId created now s in
    accounts r.2 = accounts s /\
    ledger r.2 = ledger s /\
    (forall msg, r.1 = Thrown msg -> r.2 = s).
Proof.
  intros cfg from toNumber amt u newId created now s r. unfold r.
  unfold initiateTransfer, bind, ret, throw, Prisma.account_findUnique,
    Prisma.account_findByNumber, Prisma.transaction_create. simpl.
  destruct (accounts s !! from) as [fromAccount |]; [| auto].
  destruct (List.find _ (map_to_list (accounts s))) as [[k toAccount] |]; simpl; [| auto].
  destruct (String.eqb (acc_id fromAccount) (acc_id toAccount)); [auto |].
  destruct (availableAfterReserve cfg fromAccount <? amt); [auto |].
  destruct (timelockThreshold cfg <? amt).
  - unfold TimelockService.lockTransaction, bind, ret, Prisma.transaction_update. simpl.
    rewrite lookup_insert_eq. simpl. repeat split. intros msg H. discriminate.
  - unfold QueueService.enqueue, bind, ret, Prisma.transaction_update. simpl.
    rewrite lookup_insert_eq. simpl. repeat split. intros msg H. discriminate.
Qed.

(** X13.  [initiateTransfer] reserves nothing: whatever it answers, the accounts
    and the ledger are as before; and a rejected transfer leaves the whole
    state as it was (no row, no queue entry). *)
Theorem initiateTransfer_reserves_nothing :
  forall (cfg : Config) (from toNumber : string) (amt : Z) (u : Urgency)
         (newId : string) (created now : Z) (s : State),
    let r := initiateTransfer cfg from toNumber amt u newId created now s in
    accounts r.2 = accounts s /\
    ledger r.2 = ledger s /\
    (forall msg, r.1 = Thrown msg -> r.2 = s).
Proof. exact initiateTransfer_reserves_nothing_lemma. Qed.

(** X14.  Between a sender and a different recipient that both exist, a transfer
    is accepted exactly when its amount is at most what [getAvailableBalance]
    reports for the sender. *)
Theorem initiateTransfer_accepts_iff_available :
  forall (cfg : Config) (from toNumber : string) (amt : Z) (u : Urgency)
         (newId : string) (created now : Z) (s : State) (sender recipient : Account),
    accounts s !! from = Some sender ->
    (Prisma.account_findByNumber toNumber s).1 = Returned (Some recipient) ->
    acc_id sender <> acc_id recipient ->
    exists available,
      AccountService.getAvailableBalance cfg from s = (Returned available, s) /\
      ((exists t, (initiateTransfer cfg from toNumber amt u newId created now s).1 = Returned t)
       <-> amt <= available).
Proof.
  intros cfg from toNumber amt u newId created now s sender recipient Hs Hr Hne.
  unfold AccountService.getAvailableBalance, bind, ret, Prisma.account_findUnique.
  simpl. rewrite Hs. eexists. split; [reflexivity |].
  unfold Prisma.account_findByNumber in Hr. simpl in Hr.
  unfold initiateTransfer, bind, ret, throw, Prisma.account_findUnique,
    Prisma.account_findByNumber, Prisma.transaction_create. simpl.
  rewrite Hs.
  destruct (List.find _ (map_to_list (accounts s))) as [[k toAccount] |];
    simpl in Hr |- *; [| discriminate].
  injection Hr as ->.
  apply String.eqb_neq in Hne. rewrite Hne.
  unfold availableAfterReserve.
  destruct (Z.ltb_spec (balance sender - reservedAmount sender - tierReserves cfg (tier sender))
              amt) as [Hlt | Hge].
  - split; [intros [t H]; discriminate | lia].
  - split; [intros _; exact Hge | intros _].
    destruct (timelockThreshold cfg <? amt).
    + unfold TimelockService.lockTransaction, bind, ret, Prisma.transaction_update. simpl.
      rewrite lookup_insert_eq. simpl. eauto.
    + unfold QueueService.enqueue, bind, ret, Prisma.transaction_update. simpl.
      rewrite lookup_insert_eq. simpl. eauto.
Qed.

Lemma initiateTransfer_accepts_iff_available_witness :
  exists t,
    (initiateTransfer defaultConfig "X" "1002" (rupees 19900) NORMAL "f000" 0 0
       (initialState Scenario.bank)).1 = Returned t.
Proof.
  destruct (initiateTransfer_accepts_iff_available defaultConfig "X" "1002" (rupees 19900)
              NORMAL "f000" 0 0 (initialState Scenario.bank) Scenario.accX Scenario.accY
              ltac:(vm_compute; reflexivity) ltac:(vm_compute; reflexivity)
              ltac:(discriminate)) as (available & Ha & Hiff).
  apply Hiff. vm_compute in Ha. injection Ha as <-. vm_compute. discriminate.
Defined.

Lemma reserveFunds_rejects_lemma :
  forall (id : string) (cfg : Config) (now : Z) (s : State),
    (priority_queue (reserveFunds id cfg now s).2 = priority_queue s /\
     timelock_heap (reserveFunds id cfg now s).2 = timelock_heap s /\
     txn_data (reserveFunds id cfg now s).2 = txn_data s) /\
    (transactions s !! id = None -> reserveFunds id cfg now s = (Returned false, s)) /\
    (forall t, transactions s !! id = Some t ->
       status t <> QUEUED -> status t <> PENDING_MANUAL ->
       reserveFunds id cfg now s = (Returned false, s)).
Proof.
  intros id cfg now s.
  unfold reserveFunds, prisma_transaction, bind, ret, Prisma.transaction_findUnique,
    Prisma.account_findUnique, Prisma.account_update, Prisma.transaction_update,
    Prisma.ledgerEntry_create. simpl.
  destruct (transactions s !! id) as [t |] eqn:Ht; [| repeat split; intros; discriminate].
  destruct (isPendingReservation (status t)) eqn:Hp; simpl.
  - split.
    + destruct (accounts s !! fromAccountId t) as [src |] eqn:Hsrc; [| auto].
      destruct (availableAfterReserve cfg src <? amount t); simpl.
      * rewrite Ht. auto.
      * destruct (accounts s !! acc_id src); simpl; [rewrite Ht |]; auto.
    + split; [discriminate |]. intros t' Heq H1 H2. injection Heq as <-.
      destruct (status t); simpl in Hp; congruence.
  - repeat split.
Qed.

(** X15.  [reserveFunds] never writes to Redis (a transaction that fails the
    balance check stays in the priority queue), and for a transaction that
    does not exist or is neither QUEUED nor PENDING_MANUAL it returns false
    and changes nothing. *)
Theorem reserveFunds_rejects_and_keeps_redis :
  forall (id : string) (cfg : Config) (now : Z) (s : State),
    (priority_queue (reserveFunds id cfg now s).2 = priority_queue s /\
     timelock_heap (reserveFunds id cfg now s).2 = timelock_heap s /\
     txn_data (reserveFunds id cfg now s).2 = txn_data s) /\
    (transactions s !! id = None -> reserveFunds id cfg now s = (Returned false, s)) /\
    (forall t, transactions s !! id = Some t ->
       status t <> QUEUED -> status t <> PENDING_MANUAL ->
       reserveFunds id cfg now s = (Returned false, s)).
Proof. exact reserveFunds_rejects_lemma. Qed.

(** The state a successful [reserveFunds] started from. *)
Lemma reserveFunds_true_inv id cfg now s s' :
  db_ok s ->
  reserveFunds id cfg now s = (Returned true, s') ->
  exists t src,
    transactions s !! id = Some t /\
    accounts s !! fromAccountId t = Some src /\
    amount t <= availableAfterReserve cfg src /\
    s' = mkState
           (<[fromAccountId t := set_reservedAmount (reservedAmount src + amount t) src]>
              (accounts s))
           (<[id := set_reservedAt now (set_status RESERVED t)]> (transactions s))
           (ledger s ++ [mkLedgerEntry (fromAccountId t) id RESERVE (amount t) (balance src)
                           (String.append "Reserved for transfer to " (toAccountId t))])
           (priority_queue s) (timelock_heap s) (txn_data s).
Proof.
  intros [Hk Htx] H.
  destruct (transactions s !! id) as [t |] eqn:Ht.
  2:{ destruct (reserveFunds_rejects_lemma id cfg now s) as (_ & Hn & _).
      rewrite Hn in H by exact Ht. discriminate. }
  destruct (Htx id t Ht) as (_ & [src Hsrc] & _).
  destruct (isPendingReservation (status t)) eqn:Hp.
  2:{ destruct (reserveFunds_rejects_lemma id cfg now s) as (_ & _ & Hn).
      rewrite (Hn t Ht) in H; [discriminate | |]; intros E; rewrite E in Hp; discriminate. }
  destruct (Z.lt_ge_cases (availableAfterReserve cfg src) (amount t)) as [Hlt | Hge].
  - rewrite (reserveFunds_insufficient cfg id now s t src Ht Hp Hsrc Hlt) in H. discriminate.
  - rewrite (reserveFunds_sufficient cfg id now s t src Ht Hp Hsrc (Hk _ _ Hsrc) Hge) in H.
    injection H as <-. exists t, src. auto.
Qed.

(** X16.  A reservation never digs into the tier reserve: after a successful
    [reserveFunds] the source account still has
    balance - reservedAmount - tierReserve >= 0. *)
Theorem reserveFunds_keeps_tier_reserve :
  forall (id : string) (cfg : Config) (now : Z) (s s' : State),
    db_ok s ->
    reserveFunds id cfg now s = (Returned true, s') ->
    exists t src',
      transactions s !! id = Some t /\
      accounts s' !! fromAccountId t = Some src' /\
      0 <= balance src' - reservedAmount src' - tierReserves cfg (tier src').
Proof.
  intros id cfg now s s' Hdb H.
  apply reserveFunds_true_inv in H as (t & src & Ht & Hsrc & Hge & ->); [| exact Hdb].
  exists t. eexists. split; [exact Ht |]. simpl. split; [apply lookup_insert_eq |].
  unfold availableAfterReserve in Hge. simpl. lia.
Qed.

Lemma reserveFunds_keeps_tier_reserve_witness :
  exists t src',
    transactions Scenario.afterFirst !! "b7e1" = Some t /\
    accounts Scenario.reservedFirst !! fromAccountId t = Some src' /\
    0 <= balance src' - reservedAmount src' - tierReserves defaultConfig (tier src').
Proof.
  apply (reserveFunds_keeps_tier_reserve "b7e1" defaultConfig 1000 Scenario.afterFirst
           Scenario.reservedFirst
           (reachable_db_ok _ _ _ bank_keyed afterFirst_reachable)).
  vm_compute. reflexivity.
Defined.

End Reservation.

(** * Release and manual completion *)

Section ReleaseAndCompletion.

Import TransactionService.

Lemma rollback_reserved id reason s t src :
  transactions s !! id = Some t ->
  status t = RESERVED ->
  accounts s !! fromAccountId t = Some src ->
  rollback id reason s =
    (Returned true,
     mkState
       (<[fromAccountId t := set_reservedAmount (reservedAmount src - amount t) src]>
          (accounts s))
       (<[id := set_failureReason reason (set_status CANCELLED t)]> (transactions s))
       (ledger s ++ [mkLedgerEntry (fromAccountId t) id RELEASE (amount t) (balance src)
                       (String.append "Released: " reason)])
       (ZSet.zrem id (priority_queue s)) (timelock_heap s) (delete id (txn_data s))).
Proof.
  intros Ht Hst Hsrc.
  unfold rollback, prisma_transaction, bind, ret, Prisma.transaction_findUnique,
    Prisma.account_update, Prisma.ledgerEntry_create, Prisma.transaction_update,
    QueueService.dequeue. simpl.
  rewrite Ht, Hst. simpl. rewrite Hsrc. simpl. rewrite Ht. reflexivity.
Qed.

Lemma rollback_missing id reason s :
  transactions s !! id = None -> rollback id reason s = (Returned false, s).
Proof.
  intros Ht. unfold rollback, prisma_transaction, bind, ret, Prisma.transaction_findUnique.
  simpl. rewrite Ht. reflexivity.
Qed.

(** X17.  [rollback] of a RESERVED transaction, in tables of the right shape:
    it returns true, the reserved amount of the source drops by exactly the
    amount while every balance stays, one RELEASE entry is appended to the
    ledger, the transaction becomes CANCELLED with the reason given, and its
    id leaves the priority queue.  For an id without a transaction it
    returns false and changes nothing. *)
Theorem rollback_releases_reservation :
  forall (id reason : string) (s : State),
    (transactions s !! id = None -> rollback id reason s = (Returned false, s)) /\
    (db_ok s ->
     forall t, transactions s !! id = Some t -> status t = RESERVED ->
       exists src,
         accounts s !! fromAccountId t = Some src /\
         let (result, s') := rollback id reason s in
         result = Returned true /\
         accounts s' !! fromAccountId t
           = Some (set_reservedAmount (reservedAmount src - amount t) src) /\
         (forall k, k <> fromAccountId t -> accounts s' !! k = accounts s !! k) /\
         ledger s'
           = ledger s ++ [mkLedgerEntry (fromAccountId t) id RELEASE (amount t) (balance src)
                            (String.append "Released: " reason)] /\
         transactions s' !! id = Some (set_failureReason reason (set_status CANCELLED t)) /\
         status <$> transactions s' !! id = Some CANCELLED /\
         failureReason <$> transactions s' !! id = Some (Some reason) /\
         ~ In id (ZSet.members (priority_queue s'))).
Proof.
  intros id reason s. split; [apply rollback_missing |].
  intros [Hk Htx] t Ht Hst. destruct (Htx id t Ht) as (_ & [src Hsrc] & _).
  exists src. split; [exact Hsrc |].
  rewrite (rollback_reserved id reason s t src Ht Hst Hsrc). simpl.
  split; [reflexivity |]. split; [apply lookup_insert_eq |].
  split; [intros k Hne; apply lookup_insert_ne; congruence |].
  split; [reflexivity |]. split; [apply lookup_insert_eq |].
  split; [rewrite lookup_insert_eq; reflexivity |].
  split; [rewrite lookup_insert_eq; reflexivity | apply zrem_members].
Qed.

Lemma rollback_releases_reservation_witness :
  exists src,
    accounts Scenario.reservedFirst !! "X" = Some src /\
    reservedAmount <$>
      accounts (rollback "b7e1" "Cancelled" Scenario.reservedFirst).2 !! "X"
      = Some (reservedAmount src - rupees 500) /\
    failureReason <$>
      transactions (rollback "b7e1" "Cancelled" Scenario.reservedFirst).2 !! "b7e1"
      = Some (Some "Cancelled").
Proof.
  destruct (rollback_releases_reservation "b7e1" "Cancelled" Scenario.reservedFirst)
    as [_ H].
  destruct (H (reachable_db_ok _ _ _ bank_keyed reservedFirst_reachable)
              (set_reservedAt 1000 (set_status RESERVED Scenario.txFirst))
              ltac:(vm_compute; reflexivity) ltac:(reflexivity)) as (src & Hsrc & H').
  exists src. split; [exact Hsrc |].
  destruct (rollback "b7e1" "Cancelled" Scenario.reservedFirst) as [r s'].
  destruct H' as (_ & Hx & _ & _ & _ & _ & Hwhy & _). simpl in *.
  split; [rewrite Hx; reflexivity | exact Hwhy].
Defined.

Lemma set_reservedAmount_back (a : Account) (x : Z) :
  set_reservedAmount (reservedAmount a + x - x) (set_reservedAmount (reservedAmount a + x) a)
  = a.
Proof. destruct a. unfold set_reservedAmount. simpl. f_equal. lia. Qed.

(** X18.  Reserving and then rolling back gives the accounts back exactly: after
    a successful [reserveFunds], [rollback] returns true and every account
    (balance and reserved amount) is what it was before the reservation; the
    ledger has gained a RESERVE and a RELEASE entry and the transaction is
    CANCELLED. *)
Theorem reserve_then_rollback_restores_accounts :
  forall (id reason : string) (cfg : Config) (now : Z) (s s1 : State),
    db_ok s ->
    reserveFunds id cfg now s = (Returned true, s1) ->
    exists (t : Transaction) (src : Account) (s2 : State),
      transactions s !! id = Some t /\
      accounts s !! fromAccountId t = Some src /\
      rollback id reason s1 = (Returned true, s2) /\
      accounts s2 = accounts s /\
      ledger s2
        = ledger s ++
            [ mkLedgerEntry (fromAccountId t) id RESERVE (amount t) (balance src)
                (String.append "Reserved for transfer to " (toAccountId t));
              mkLedgerEntry (fromAccountId t) id RELEASE (amount t) (balance src)
                (String.append "Released: " reason) ] /\
      status <$> transactions s2 !! id = Some CANCELLED.
Proof.
  intros id reason cfg now s s1 Hdb H.
  apply reserveFunds_true_inv in H as (t & src & Ht & Hsrc & Hge & ->); [| exact Hdb].
  exists t, src. eexists. split; [exact Ht |]. split; [exact Hsrc |].
  split.
  - apply (rollback_reserved id reason _ (set_reservedAt now (set_status RESERVED t))
             (set_reservedAmount (reservedAmount src + amount t) src)).
    + simpl. apply lookup_insert_eq.
    + reflexivity.
    + simpl. apply lookup_insert_eq.
  - simpl. split; [| split].
    + rewrite insert_insert_eq, set_reservedAmount_back. now apply insert_id.
    + rewrite <- app_assoc. reflexivity.
    + rewrite lookup_insert_eq. reflexivity.
Qed.

Lemma reserve_then_rollback_restores_accounts_witness :
  accounts (rollback "b7e1" "Cancelled" Scenario.reservedFirst).2
  = accounts Scenario.afterFirst.
Proof.
  destruct (reserve_then_rollback_restores_accounts "b7e1" "Cancelled" defaultConfig 1000
              Scenario.afterFirst Scenario.reservedFirst
              (reachable_db_ok _ _ _ bank_keyed afterFirst_reachable)
              ltac:(vm_compute; reflexivity))
    as (t & src & s2 & _ & _ & Hr & Ha & _).
  rewrite Hr. exact Ha.
Defined.

(** X19.  Manual completion of a QUEUED or PENDING_MANUAL transaction, in tables
    of the right shape, is the reservation followed by the finalization.
    With enough available funds it returns true: the source balance drops by
    the amount and its reserved amount is what it was, the destination
    balance grows by the amount, the ledger gains RESERVE, DEBIT and CREDIT
    entries in this order, the transaction is COMPLETED and out of the
    priority queue.  Without, it returns false: the transaction is FAILED and
    accounts and ledger are untouched. *)
Theorem completeManual_reserves_then_finalizes :
  forall (id : string) (cfg : Config) (now : Z) (s : State) (t : Transaction),
    db_ok s ->
    transactions s !! id = Some t ->
    status t = QUEUED \/ status t = PENDING_MANUAL ->
    exists src dst : Account,
      accounts s !! fromAccountId t = Some src /\
      accounts s !! toAccountId t = Some dst /\
      let available := balance src - reservedAmount src - tierReserves cfg (tier src) in
      let (result, s') := completeManual id cfg now s in
      (available < amount t ->
         result = Returned false /\
         status <$> transactions s' !! id = Some FAILED /\
         accounts s' = accounts s /\ ledger s' = ledger s) /\
      (amount t <= available ->
         result = Returned true /\
         (exists src', accounts s' !! fromAccountId t = Some src' /\
            balance src' = balance src - amount t /\
            reservedAmount src' = reservedAmount src) /\
         accounts s' !! toAccountId t = Some (set_balance (balance dst + amount t) dst) /\
         ledger s'
           = ledger s ++
               [ mkLedgerEntry (fromAccountId t) id RESERVE (amount t) (balance src)
                   (String.append "Reserved for transfer to " (toAccountId t));
                 mkLedgerEntry (fromAccountId t) id DEBIT (amount t) (balance src - amount t)
                   (String.append "Transfer to " (toAccountId t));
                 mkLedgerEntry (toAccountId t) id CREDIT (amount t) (balance dst + amount t)
                   (String.append "Transfer from " (fromAccountId t)) ] /\
         status <$> transactions s' !! id = Some COMPLETED /\
         ~ In id (ZSet.members (priority_queue s'))).
Proof.
  intros id cfg now s t [Hk Htx] Ht Hst.
  destruct (Htx id t Ht) as (Hne & [src Hsrc] & [dst Hdst]).
  exists src, dst. split; [exact Hsrc |]. split; [exact Hdst |]. intros available.
  assert (Hp : isPendingReservation (status t) = true)
    by (destruct Hst as [-> | ->]; reflexivity).
  unfold completeManual, bind at 1, Prisma.transaction_findUnique. simpl.
  rewrite Ht, Hp. unfold bind.
  destruct (Z.lt_ge_cases available (amount t)) as [Hlt | Hge].
  - rewrite (reserveFunds_insufficient cfg id now s t src Ht Hp Hsrc Hlt). simpl.
    split; [intros _ | intros H; lia].
    split; [reflexivity |]. split; [rewrite lookup_insert_eq; reflexivity |].
    split; reflexivity.
  - rewrite (reserveFunds_sufficient cfg id now s t src Ht Hp Hsrc (Hk _ _ Hsrc) Hge).
    simpl.
    erewrite (finalize_reserved id now _ (set_reservedAt now (set_status RESERVED t))
                (set_reservedAmount (reservedAmount src + amount t) src) dst);
      [| simpl; apply lookup_insert_eq | reflexivity | simpl; apply lookup_insert_eq
       | simpl; rewrite lookup_insert_ne by exact Hne; exact Hdst | exact Hne].
    simpl.
    split; [intros H; lia | intros _].
    split; [reflexivity |]. split.
    { eexists. split; [rewrite lookup_insert_ne by congruence; apply lookup_insert_eq |].
      simpl. split; lia. }
    split; [apply lookup_insert_eq |].
    split; [rewrite <- app_assoc; reflexivity |].
    split; [rewrite lookup_insert_eq; reflexivity | apply zrem_members].
Qed.

Lemma completeManual_reserves_then_finalizes_witness :
  (completeManual "b7e1" defaultConfig 1000 Scenario.afterFirst).1 = Returned true /\
  (completeManual "c001" defaultConfig 2000 Scenario.oneLargeReserved).1 = Returned false.
Proof.
  split.
  - destruct (completeManual_reserves_then_finalizes "b7e1" defaultConfig 1000
                Scenario.afterFirst Scenario.txFirst
                (reachable_db_ok _ _ _ bank_keyed afterFirst_reachable)
                ltac:(vm_compute; reflexivity) ltac:(left; reflexivity))
      as (src & dst & Hsrc & _ & H).
    vm_compute in Hsrc. injection Hsrc as <-. cbv zeta in H.
    destruct (completeManual "b7e1" defaultConfig 1000 Scenario.afterFirst) as [r s'].
    destruct H as [_ H]. apply H. vm_compute. discriminate.
  - destruct (completeManual_reserves_then_finalizes "c001" defaultConfig 2000
                Scenario.oneLargeReserved Scenario.txLarge
                (reachable_db_ok _ _ _ bank_keyed oneLargeReserved_reachable)
                ltac:(vm_compute; reflexivity) ltac:(left; reflexivity))
      as (src & dst & Hsrc & _ & H).
    vm_compute in Hsrc. injection Hsrc as <-. cbv zeta in H.
    destruct (completeManual "c001" defaultConfig 2000 Scenario.oneLargeReserved) as [r s'].
    destruct H as [H _]. apply H. vm_compute. reflexivity.
Defined.

(** X20.  Manual completion never moves a transaction that is not QUEUED,
    PENDING_MANUAL or RESERVED: for a LOCKED, CREATED, COMPLETED, FAILED or
    CANCELLED transaction, or an id without a transaction, it returns false
    and changes nothing.  In particular an operator cannot complete a
    transfer that is still time-locked. *)
Theorem completeManual_rejects_other_states :
  forall (id : string) (cfg : Config) (now : Z) (s : State),
    (transactions s !! id = None -> completeManual id cfg now s = (Returned false, s)) /\
    (forall t, transactions s !! id = Some t ->
       status t <> QUEUED -> status t <> PENDING_MANUAL -> status t <> RESERVED ->
       completeManual id cfg now s = (Returned false, s)).
Proof.
  intros id cfg now s.
  unfold completeManual, bind, Prisma.transaction_findUnique. simpl. split.
  - intros Ht. rewrite Ht. reflexivity.
  - intros t Ht H1 H2 H3. rewrite Ht.
    assert (Hp : isPendingReservation (status t) = false)
      by (destruct (status t); simpl; congruence).
    rewrite Hp. apply finalize_rejects. intros t' Ht'. congruence.
Qed.

Lemma completeManual_rejects_other_states_witness :
  completeManual "d4f0" defaultConfig 1000 Scenario.afterLocked
  = (Returned false, Scenario.afterLocked).
Proof.
  apply (completeManual_rejects_other_states "d4f0" defaultConfig 1000 Scenario.afterLocked)
    with (t := Scenario.txLocked); [vm_compute; reflexivity | | |]; discriminate.
Defined.

End ReleaseAndCompletion.

(** * What no operation does: money, transaction rows, ledger *)

Section Conservation.

Lemma totalBalance_insert_fresh (accs : gmap string Account) k a :
  accs !! k = None -> totalBalance (<[k := a]> accs) = balance a + totalBalance accs.
Proof.
  intros Hn. unfold totalBalance.
  apply (map_fold_insert_L (fun _ (a : Account) acc => balance a + acc)); [| exact Hn].
  intros. lia.
Qed.

Lemma totalBalance_delete (accs : gmap string Account) k a :
  accs !! k = Some a -> totalBalance accs = balance a + totalBalance (delete k accs).
Proof.
  intros Hs. unfold totalBalance.
  apply (map_fold_delete_L (fun _ (a : Account) acc => balance a + acc)); [| exact Hs].
  intros. lia.
Qed.

Lemma totalBalance_insert (accs : gmap string Account) k a a' :
  accs !! k = Some a ->
  totalBalance (<[k := a']> accs) = totalBalance accs - balance a + balance a'.
Proof.
  intros Hs. rewrite <- insert_delete_eq.
  rewrite totalBalance_insert_fresh by apply lookup_delete_eq.
  rewrite (totalBalance_delete accs k a Hs). lia.
Qed.

Lemma total_rollback_closed c : rollback_closed (total_is c).
Proof. intros s s' H _. exact H. Qed.

Lemma preserves_total_account_update c id f :
  (forall a, balance (f a) = balance a) -> preserves (total_is c) (Prisma.account_update id f).
Proof.
  intros Hf s H. unfold Prisma.account_update, total_is in *.
  destruct (accounts s !! id) as [a |] eqn:Ha; [| exact H]. simpl.
  rewrite (totalBalance_insert _ _ a) by exact Ha. rewrite Hf. lia.
Qed.

Lemma preserves_total_unchanged {A} c (k : M A) :
  (forall s, accounts (k s).2 = accounts s) -> preserves (total_is c) k.
Proof. intros Hk s H. unfold total_is. now rewrite Hk. Qed.

Lemma preserves_total_transaction_update c id f :
  preserves (total_is c) (Prisma.transaction_update id f).
Proof.
  apply preserves_total_unchanged. intros s. unfold Prisma.transaction_update.
  destruct (transactions s !! id); reflexivity.
Qed.

Ltac total_leaf :=
  first
    [ apply preserves_total_account_update; intros; reflexivity
    | apply preserves_total_transaction_update
    | apply preserves_total_unchanged; intros; reflexivity ].

Ltac total := let rb := uconstr:(total_rollback_closed _) in walk rb total_leaf.

Lemma preserves_total_finalize c id now :
  preserves (total_is c) (TransactionService.finalize id now).
Proof.
  intros s H. unfold total_is in *.
  unfold TransactionService.finalize, prisma_transaction, bind, ret,
    Prisma.transaction_findUnique, Prisma.account_update, Prisma.ledgerEntry_createMany,
    Prisma.transaction_update, QueueService.dequeue. simpl.
  destruct (transactions s !! id) as [t |] eqn:Ht; [| exact H].
  destruct (bool_decide (status t = RESERVED)); simpl; [| exact H].
  destruct (accounts s !! fromAccountId t) as [src |] eqn:Hsrc; simpl; [| exact H].
  match goal with
  | |- context [ (<[fromAccountId t := ?v]> (accounts s)) !! toAccountId t ] =>
      destruct ((<[fromAccountId t := v]> (accounts s)) !! toAccountId t) as [dst |] eqn:Hdst
  end; simpl; [| exact H].
  rewrite Ht. simpl.
  rewrite (totalBalance_insert _ _ dst) by exact Hdst.
  rewrite (totalBalance_insert _ _ src) by exact Hsrc. simpl. lia.
Qed.

Lemma preserves_total_lockTransaction c cfg id now :
  preserves (total_is c) (TimelockService.lockTransaction cfg id now).
Proof. unfold TimelockService.lockTransaction. total. Qed.

Lemma preserves_total_moveAll c cfg now l :
  preserves (total_is c) (TimelockService.moveAll cfg now l).
Proof.
  induction l as [|x l IH]; simpl; [apply preserves_ret |].
  apply preserves_bind; [| intros _; exact IH].
  unfold TimelockService.moveToQueue. total.
Qed.

Lemma preserves_total_reserveFunds c id cfg now :
  preserves (total_is c) (TransactionService.reserveFunds id cfg now).
Proof. unfold TransactionService.reserveFunds. total. Qed.

Lemma preserves_total_rollback c id reason :
  preserves (total_is c) (TransactionService.rollback id reason).
Proof. unfold TransactionService.rollback. total. Qed.

(** X21.  Money is conserved.  Along a run the sum of all balances changes only
    when an account is created, and then by the balance of the new account;
    every other operation (admission, reservation, finalization, rollback,
    manual completion, the two sweeps, the two cancel routes) leaves it as
    it is. *)
Theorem step_conserves_total_balance :
  forall (cfg : Config) (s s' : State),
    step cfg s s' ->
    totalBalance (accounts s') = totalBalance (accounts s) \/
    exists a : Account,
      accounts s !! acc_id a = None /\
      accounts s' = <[acc_id a := a]> (accounts s) /\
      totalBalance (accounts s') = totalBalance (accounts s) + balance a.
Proof.
  intros cfg s s' Hstep.
  assert (H : total_is (totalBalance (accounts s)) s) by reflexivity.
  destruct Hstep as
    [ newId accNo tr dep Hfresh | from toNumber amt u newId created now Hfresh
    | tid now | tid now | tid reason | tid now | now | clock | userId tid | tid reason ].
  - right.
    exists (mkAccount newId accNo
              (match dep with
               | Some d => if d =? 0 then rupees 1000 else d
               | None => rupees 1000
               end) 0 (default BASIC tr) 0).
    simpl. split; [assumption |]. split; [reflexivity |].
    rewrite totalBalance_insert_fresh by assumption. simpl. lia.
  - left. revert H. apply preserves_total_unchanged. intros s0.
    apply (initiateTransfer_reserves_nothing_lemma cfg from toNumber amt u newId created now s0).
  - left. revert H. apply preserves_total_reserveFunds.
  - left. revert H. apply preserves_total_finalize.
  - left. revert H. apply preserves_total_rollback.
  - left.
    pose proof (preserves_total_reserveFunds (totalBalance (accounts s)) tid cfg now).
    pose proof (preserves_total_finalize (totalBalance (accounts s)) tid now).
    assert (Hp : preserves (total_is (totalBalance (accounts s)))
                   (TransactionService.completeManual tid cfg now))
      by (unfold TransactionService.completeManual;
          apply preserves_bind; [total_leaf | intros [t |]]; [| apply preserves_ret];
          destruct (TransactionService.isPendingReservation (status t)); [| assumption];
          apply preserves_bind; [assumption | intros r];
          destruct (negb r); [apply preserves_ret | assumption]).
    exact (Hp s H).
  - left.
    assert (Hp : preserves (total_is (totalBalance (accounts s)))
                   (TimelockService.processUnlocked cfg now)).
    { unfold TimelockService.processUnlocked.
      apply preserves_bind; [total | intros l].
      apply preserves_bind; [apply preserves_total_moveAll | intros _; apply preserves_ret]. }
    exact (Hp s H).
  - left. revert H. apply preserves_total_unchanged. reflexivity.
  - left.
    change (total_is (totalBalance (accounts s)) (Controllers.customerCancel userId tid s).2).
    unfold Controllers.customerCancel. apply preserves_route; [| exact H].
    unfold TransactionService.getById, TimelockService.cancelLocked. total.
  - left.
    pose proof (preserves_total_rollback (totalBalance (accounts s)) tid
                  (Controllers.reasonOrDefault reason)).
    change (total_is (totalBalance (accounts s)) (Controllers.adminCancel tid reason s).2).
    unfold Controllers.adminCancel. apply preserves_route; [| exact H].
    apply preserves_bind; [assumption | intros r]. destruct r; apply preserves_ret.
Qed.

Lemma step_conserves_total_balance_witness :
  totalBalance (accounts Scenario.completedFirst)
  = totalBalance (accounts Scenario.reservedFirst) \/
  exists a : Account,
    accounts Scenario.reservedFirst !! acc_id a = None /\
    accounts Scenario.completedFirst = <[acc_id a := a]> (accounts Scenario.reservedFirst) /\
    totalBalance (accounts Scenario.completedFirst)
    = totalBalance (accounts Scenario.reservedFirst) + balance a.
Proof.
  apply (step_conserves_total_balance defaultConfig). apply step_finalize.
Defined.

End Conservation.

Section RowsAndLedger.

Lemma same_transfer_refl t : same_transfer t t.
Proof. repeat split. Qed.

Lemma same_transfer_trans t t' t'' :
  same_transfer t t' -> same_transfer t' t'' -> same_transfer t t''.
Proof.
  unfold same_transfer. intros (A1 & A2 & A3 & A4 & A5 & A6 & A7) (B1 & B2 & B3 & B4 & B5 & B6 & B7).
  repeat split; congruence.
Qed.

Lemma keeps_row_rollback_closed id t : rollback_closed (keeps_row id t).
Proof. intros s s' H _. exact H. Qed.

Lemma preserves_row_unchanged {A} id t (k : M A) :
  (forall s, transactions (k s).2 = transactions s) -> preserves (keeps_row id t) k.
Proof. intros Hk s H. unfold keeps_row. now rewrite Hk. Qed.

Lemma preserves_row_account_update id t k f :
  preserves (keeps_row id t) (Prisma.account_update k f).
Proof.
  apply preserves_row_unchanged. intros s. unfold Prisma.account_update.
  destruct (accounts s !! k); reflexivity.
Qed.

Lemma preserves_row_transaction_update id t k f :
  (forall x, same_transfer x (f x)) ->
  preserves (keeps_row id t) (Prisma.transaction_update k f).
Proof.
  intros Hf s (t' & Ht' & Hsame). unfold Prisma.transaction_update, keeps_row.
  destruct (transactions s !! k) as [x |] eqn:Hx; simpl; [| eauto].
  destruct (decide (k = id)) as [-> | Hne].
  - rewrite lookup_insert_eq. eexists. split; [reflexivity |].
    rewrite Ht' in Hx. injection Hx as <-. eapply same_transfer_trans; eauto.
  - rewrite lookup_insert_ne by exact Hne. eauto.
Qed.

Ltac row_leaf :=
  first
    [ apply preserves_row_account_update
    | apply preserves_row_transaction_update; intros; repeat split
    | apply preserves_row_unchanged; intros; reflexivity ].

Ltac row := let rb := uconstr:(keeps_row_rollback_closed _ _) in walk rb row_leaf.

Lemma preserves_row_moveAll id t cfg now l :
  preserves (keeps_row id t) (TimelockService.moveAll cfg now l).
Proof.
  induction l as [|x l IH]; simpl; [apply preserves_ret |].
  apply preserves_bind; [| intros _; exact IH].
  unfold TimelockService.moveToQueue. row.
Qed.

Lemma preserves_row_reserveFunds id t k cfg now :
  preserves (keeps_row id t) (TransactionService.reserveFunds k cfg now).
Proof. unfold TransactionService.reserveFunds. row. Qed.

Lemma preserves_row_finalize id t k now :
  preserves (keeps_row id t) (TransactionService.finalize k now).
Proof. unfold TransactionService.finalize. row. Qed.

Lemma preserves_row_rollback id t k reason :
  preserves (keeps_row id t) (TransactionService.rollback k reason).
Proof. unfold TransactionService.rollback. row. Qed.

Lemma preserves_row_initiateTransfer id t cfg from toNumber amt u newId created now s :
  transactions s !! newId = None ->
  keeps_row id t s ->
  keeps_row id t
    (TransactionService.initiateTransfer cfg from toNumber amt u newId created now s).2.
Proof.
  intros Hfresh (t' & Ht' & Hsame).
  assert (Hne : newId <> id) by (intros ->; congruence).
  unfold TransactionService.initiateTransfer, bind, ret, throw, Prisma.account_findUnique,
    Prisma.account_findByNumber, Prisma.transaction_create, keeps_row. simpl.
  destruct (accounts s !! from) as [fromAccount |]; [| eauto].
  destruct (List.find _ (map_to_list (accounts s))) as [[k toAccount] |]; simpl; [| eauto].
  destruct (String.eqb (acc_id fromAccount) (acc_id toAccount)); [eauto |].
  destruct (TransactionService.availableAfterReserve cfg fromAccount <? amt); [eauto |].
  destruct (timelockThreshold cfg <? amt).
  - unfold TimelockService.lockTransaction, bind, ret, Prisma.transaction_update. simpl.
    rewrite lookup_insert_eq. simpl. rewrite !lookup_insert_ne by exact Hne. eauto.
  - unfold QueueService.enqueue, bind, ret, Prisma.transaction_update. simpl.
    rewrite lookup_insert_eq. simpl. rewrite !lookup_insert_ne by exact Hne. eauto.
Qed.

(** X22.  Transactions are kept.  No step of a run deletes a transaction row,
    and none changes its id, its two accounts, its amount, its urgency, its
    base priority or its creation time. *)
Theorem step_keeps_transactions :
  forall (cfg : Config) (s s' : State) (id : string) (t : Transaction),
    step cfg s s' ->
    transactions s !! id = Some t ->
    exists t', transactions s' !! id = Some t' /\ same_transfer t t'.
Proof.
  intros cfg s s' id t Hstep Ht.
  assert (H : keeps_row id t s) by (exists t; split; [exact Ht | apply same_transfer_refl]).
  change (keeps_row id t s'). destruct Hstep as
    [ newId accNo tr dep Hfresh | from toNumber amt u newId created now Hfresh
    | tid now | tid now | tid reason | tid now | now | clock | userId tid | tid reason ].
  - revert H. apply preserves_row_unchanged. reflexivity.
  - now apply preserves_row_initiateTransfer.
  - revert H. apply preserves_row_reserveFunds.
  - revert H. apply preserves_row_finalize.
  - revert H. apply preserves_row_rollback.
  - pose proof (preserves_row_reserveFunds id t tid cfg now).
    pose proof (preserves_row_finalize id t tid now).
    assert (Hp : preserves (keeps_row id t) (TransactionService.completeManual tid cfg now))
      by (unfold TransactionService.completeManual; row).
    exact (Hp s H).
  - assert (Hp : preserves (keeps_row id t) (TimelockService.processUnlocked cfg now)).
    { unfold TimelockService.processUnlocked.
      apply preserves_bind; [row | intros l].
      apply preserves_bind; [apply preserves_row_moveAll | intros _; apply preserves_ret]. }
    exact (Hp s H).
  - revert H. apply preserves_row_unchanged. reflexivity.
  - unfold Controllers.customerCancel. apply preserves_route; [| exact H].
    unfold TransactionService.getById, TimelockService.cancelLocked. row.
  - pose proof (preserves_row_rollback id t tid (Controllers.reasonOrDefault reason)).
    unfold Controllers.adminCancel. apply preserves_route; [| exact H].
    apply preserves_bind; [assumption | intros r]. destruct r; apply preserves_ret.
Qed.

Lemma step_keeps_transactions_witness :
  exists t', transactions Scenario.reservedFirst !! "b7e1" = Some t' /\
             same_transfer Scenario.txFirst t'.
Proof.
  apply (step_keeps_transactions defaultConfig Scenario.afterFirst Scenario.reservedFirst).
  - apply step_reserveFunds.
  - vm_compute. reflexivity.
Defined.

Lemma ledger_rollback_closed l0 : rollback_closed (ledger_extends l0).
Proof. intros s s' H _. exact H. Qed.

Lemma preserves_ledger_unchanged {A} l0 (k : M A) :
  (forall s, ledger (k s).2 = ledger s) -> preserves (ledger_extends l0) k.
Proof. intros Hk s H. unfold ledger_extends. now rewrite Hk. Qed.

Lemma preserves_ledger_account_update l0 k f :
  preserves (ledger_extends l0) (Prisma.account_update k f).
Proof.
  apply preserves_ledger_unchanged. intros s. unfold Prisma.account_update.
  destruct (accounts s !! k); reflexivity.
Qed.

Lemma preserves_ledger_transaction_update l0 k f :
  preserves (ledger_extends l0) (Prisma.transaction_update k f).
Proof.
  apply preserves_ledger_unchanged. intros s. unfold Prisma.transaction_update.
  destruct (transactions s !! k); reflexivity.
Qed.

Lemma preserves_ledger_createMany l0 es :
  preserves (ledger_extends l0) (Prisma.ledgerEntry_createMany es).
Proof.
  intros s [es0 H]. exists (es0 ++ es). simpl. rewrite H. now rewrite app_assoc.
Qed.

Lemma preserves_ledger_create l0 e :
  preserves (ledger_extends l0) (Prisma.ledgerEntry_create e).
Proof. apply (preserves_ledger_createMany l0 [e]). Qed.

Ltac ledger_leaf :=
  first
    [ apply preserves_ledger_account_update
    | apply preserves_ledger_transaction_update
    | apply preserves_ledger_create
    | apply preserves_ledger_createMany
    | apply preserves_ledger_unchanged; intros; reflexivity ].

Ltac ledgerw := let rb := uconstr:(ledger_rollback_closed _) in walk rb ledger_leaf.

Lemma preserves_ledger_moveAll l0 cfg now l :
  preserves (ledger_extends l0) (TimelockService.moveAll cfg now l).
Proof.
  induction l as [|x l IH]; simpl; [apply preserves_ret |].
  apply preserves_bind; [| intros _; exact IH].
  unfold TimelockService.moveToQueue. ledgerw.
Qed.

Lemma preserves_ledger_reserveFunds l0 k cfg now :
  preserves (ledger_extends l0) (TransactionService.reserveFunds k cfg now).
Proof. unfold TransactionService.reserveFunds. ledgerw. Qed.

Lemma preserves_ledger_finalize l0 k now :
  preserves (ledger_extends l0) (TransactionService.finalize k now).
Proof. unfold TransactionService.finalize. ledgerw. Qed.

Lemma preserves_ledger_rollback l0 k reason :
  preserves (ledger_extends l0) (TransactionService.rollback k reason).
Proof. unfold TransactionService.rollback. ledgerw. Qed.

(** X23.  The ledger is append-only: every step of a run leaves the entries
    already written where they are and at most adds entries after them. *)
Theorem step_appends_to_ledger :
  forall (cfg : Config) (s s' : State),
    step cfg s s' -> exists es, ledger s' = ledger s ++ es.
Proof.
  intros cfg s s' Hstep.
  assert (H : ledger_extends (ledger s) s) by (exists []; now rewrite app_nil_r).
  change (ledger_extends (ledger s) s'). destruct Hstep as
    [ newId accNo tr dep Hfresh | from toNumber amt u newId created now Hfresh
    | tid now | tid now | tid reason | tid now | now | clock | userId tid | tid reason ].
  - revert H. apply preserves_ledger_unchanged. reflexivity.
  - revert H. apply preserves_ledger_unchanged. intros s0.
    apply (initiateTransfer_reserves_nothing_lemma cfg from toNumber amt u newId created now s0).
  - revert H. apply preserves_ledger_reserveFunds.
  - revert H. apply preserves_ledger_finalize.
  - revert H. apply preserves_ledger_rollback.
  - pose proof (preserves_ledger_reserveFunds (ledger s) tid cfg now).
    pose proof (preserves_ledger_finalize (ledger s) tid now).
    assert (Hp : preserves (ledger_extends (ledger s))
                   (TransactionService.completeManual tid cfg now))
      by (unfold TransactionService.completeManual; ledgerw).
    exact (Hp s H).
  - assert (Hp : preserves (ledger_extends (ledger s))
                   (TimelockService.processUnlocked cfg now)).
    { unfold TimelockService.processUnlocked.
      apply preserves_bind; [ledgerw | intros l].
      apply preserves_bind; [apply preserves_ledger_moveAll | intros _; apply preserves_ret]. }
    exact (Hp s H).
  - revert H. apply preserves_ledger_unchanged. reflexivity.
  - unfold Controllers.customerCancel. apply preserves_route; [| exact H].
    unfold TransactionService.getById, TimelockService.cancelLocked. ledgerw.
  - pose proof (preserves_ledger_rollback (ledger s) tid (Controllers.reasonOrDefault reason)).
    unfold Controllers.adminCancel. apply preserves_route; [| exact H].
    apply preserves_bind; [assumption | intros r]. destruct r; apply preserves_ret.
Qed.

Lemma step_appends_to_ledger_witness :
  exists es, ledger Scenario.completedFirst = ledger Scenario.reservedFirst ++ es.
Proof.
  apply (step_appends_to_ledger defaultConfig). apply step_finalize.
Defined.

End RowsAndLedger.

Section CancelRoute.

Import Controllers.

(** X24.  The customer cancel route refuses, and leaves the whole state as it
    is, when the transaction does not exist (404), when the caller is not its
    sender (403), and when it is not LOCKED (400). *)
Theorem customerCancel_refusals :
  forall (userId id : string) (s : State),
    (transactions s !! id = None ->
     customerCancel userId id s = (Json 404 "Transaction not found", s)) /\
    (forall t, transactions s !! id = Some t -> fromAccountId t <> userId ->
       customerCancel userId id s
       = (Json 403 "You can only cancel your own transactions", s)) /\
    (forall t, transactions s !! id = Some t -> fromAccountId t = userId ->
       status t <> LOCKED ->
       customerCancel userId id s
       = (Json 400 "Only time-locked transactions can be cancelled", s)).
Proof.
  intros userId id s.
  unfold customerCancel, route, TransactionService.getById, bind, ret,
    Prisma.transaction_findUnique. simpl.
  split; [| split].
  - intros Ht. rewrite Ht. reflexivity.
  - intros t Ht Hne. rewrite Ht. apply String.eqb_neq in Hne. rewrite Hne. reflexivity.
  - intros t Ht Heq Hst. rewrite Ht, Heq, String.eqb_refl. simpl.
    rewrite bool_decide_eq_false_2 by exact Hst. reflexivity.
Qed.

Lemma customerCancel_refusals_witness :
  customerCancel "Y" "d4f0" Scenario.afterLocked
  = (Json 403 "You can only cancel your own transactions", Scenario.afterLocked).
Proof.
  apply (customerCancel_refusals "Y" "d4f0" Scenario.afterLocked) with (t := Scenario.txLocked).
  - vm_compute. reflexivity.
  - discriminate.
Defined.

End CancelRoute.

(** * Account maintenance and the advisory lock *)

Section AccountMaintenance.

Import AccountService.

(** X25.  [updateRiskScore] refuses a score outside 0..10 and leaves the state as
    it is; a score it accepts is stored on the account, and with the weight
    tables of the source every base priority computed for that account then
    lies between -3 and 16. *)
Theorem updateRiskScore_bounds_priority :
  forall (accountId : string) (risk : Z) (s : State),
    (risk < 0 \/ 10 < risk ->
     updateRiskScore accountId risk s = (Thrown "Risk score must be between 0 and 10", s)) /\
    (forall a s', updateRiskScore accountId risk s = (Returned a, s') ->
       accounts s' !! accountId = Some a /\
       riskScore a = risk /\ 0 <= risk <= 10 /\
       forall threshold seconds aging u,
         (-3 <= QueueService.calculateBasePriority (envConfig threshold seconds aging) u
                  (tier a) (riskScore a) <= 16)%Q).
Proof.
  intros accountId risk s. unfold updateRiskScore. split.
  - intros H.
    assert (E : (risk <? 0) || (10 <? risk) = true).
    { apply orb_true_iff. destruct H; [left | right]; apply Z.ltb_lt; assumption. }
    rewrite E. reflexivity.
  - intros a s' H.
    destruct (Z.ltb_spec risk 0) as [? | Hlo]; simpl in H; [discriminate |].
    destruct (Z.ltb_spec 10 risk) as [? | Hhi]; simpl in H; [discriminate |].
    unfold Prisma.account_update in H.
    destruct (accounts s !! accountId) as [a0 |]; [| discriminate].
    injection H as <- <-. simpl. rewrite lookup_insert_eq.
    split; [reflexivity |]. split; [reflexivity |]. split; [lia |].
    intros threshold seconds aging u.
    unfold QueueService.calculateBasePriority. simpl.
    assert (Hr0 : (inject_Z 0 <= inject_Z risk)%Q) by (rewrite <- Zle_Qle; lia).
    assert (Hr1 : (inject_Z risk <= inject_Z 10)%Q) by (rewrite <- Zle_Qle; lia).
    change (inject_Z 0) with 0%Q in Hr0. change (inject_Z 10) with 10%Q in Hr1.
    set (r := inject_Z risk) in *.
    destruct u, (tier a0); split; lra.
Qed.

Lemma updateRiskScore_bounds_priority_witness :
  updateRiskScore "X" 11 Scenario.afterFirst
  = (Thrown "Risk score must be between 0 and 10", Scenario.afterFirst).
Proof.
  apply (updateRiskScore_bounds_priority "X" 11 Scenario.afterFirst). right. lia.
Defined.

(** X26.  A change of tier moves no money, but it changes what the account may
    spend: after [updateTier] the available balance is computed with the
    reserve of the new tier, over the same balance and reserved amount. *)
Theorem updateTier_changes_available_only :
  forall (cfg : Config) (accountId : string) (t : Tier) (s : State) (a : Account),
    accounts s !! accountId = Some a ->
    let s' := (updateTier accountId t s).2 in
    getAvailableBalance cfg accountId s'
    = (Returned (balance a - reservedAmount a - tierReserves cfg t), s') /\
    totalBalance (accounts s') = totalBalance (accounts s) /\
    transactions s' = transactions s /\ ledger s' = ledger s.
Proof.
  intros cfg accountId t s a Ha. simpl.
  unfold updateTier, Prisma.account_update. rewrite Ha. simpl.
  split; [| split; [| split; reflexivity]].
  - unfold getAvailableBalance, bind, ret, Prisma.account_findUnique. simpl.
    rewrite lookup_insert_eq. reflexivity.
  - rewrite (totalBalance_insert _ _ a) by exact Ha. simpl. lia.
Qed.

Lemma updateTier_changes_available_only_witness :
  getAvailableBalance defaultConfig "X" (updateTier "X" VIP Scenario.afterFirst).2
  = (Returned (rupees 20000 - 0 - rupees 500), (updateTier "X" VIP Scenario.afterFirst).2).
Proof.
  apply (updateTier_changes_available_only defaultConfig "X" VIP Scenario.afterFirst
           Scenario.accX).
  vm_compute. reflexivity.
Defined.

End AccountMaintenance.

Section AdvisoryLock.

Import TxnLock.



End AdvisoryLock.

(** * The next transaction to process *)

Section ProcessNext.

Import TransactionService.

Lemma sortsBefore_spec a b :
  sortsBefore a b = true <->
  (basePriority b < basePriority a)%Q \/
  ((basePriority a == basePriority b)%Q /\ createdAt a < createdAt b).
Proof.
  unfold sortsBefore. rewrite orb_true_iff, andb_true_iff, negb_true_iff.
  rewrite Qeq_bool_iff, Z.ltb_lt. split.
  - intros [H | H]; [left | right; exact H].
    apply Qnot_le_lt. intros Hle. apply Qle_bool_iff in Hle. congruence.
  - intros [H | H]; [left | right; exact H].
    destruct (Qle_bool (basePriority a) (basePriority b)) eqn:E; [| reflexivity].
    apply Qle_bool_iff in E. lra.
Qed.

Lemma sortsBefore_false a b :
  sortsBefore a b = false <->
  (basePriority a <= basePriority b)%Q /\
  ((basePriority a == basePriority b)%Q -> createdAt b <= createdAt a).
Proof.
  rewrite <- not_true_iff_false, sortsBefore_spec. split.
  - intros H. split.
    + apply Qnot_lt_le. intros Hlt. apply H. left. exact Hlt.
    + intros Heq. destruct (Z_lt_le_dec (createdAt a) (createdAt b)) as [Hlt | Hle];
        [| exact Hle]. exfalso. apply H. right. split; assumption.
  - intros [Hle Hc] [Hlt | [Heq Hlt]]; [lra |]. specialize (Hc Heq). lia.
Qed.

Lemma sortsBefore_irrefl a : sortsBefore a a = false.
Proof. apply sortsBefore_false. split; [lra | lia]. Qed.

Lemma fold_pickFirst_some l b0 :
  exists b, fold_left pickFirst l (Some b0) = Some b /\
    (b = b0 \/ In b l) /\
    forall x, x = b0 \/ In x l -> sortsBefore x b = false.
Proof.
  revert b0. induction l as [| t l IH]; intros b0; simpl.
  - exists b0. split; [reflexivity |]. split; [left; reflexivity |].
    intros x [-> | []]. apply sortsBefore_irrefl.
  - destruct (sortsBefore t b0) eqn:E.
    + destruct (IH t) as (b & Hb & Hin & Hmax). exists b. split; [exact Hb |].
      split; [destruct Hin; auto |].
      intros x [-> | [-> | Hx]]; [| apply Hmax; auto | apply Hmax; auto].
      apply sortsBefore_false.
      assert (Ht : sortsBefore t b = false) by (apply Hmax; auto).
      apply sortsBefore_false in Ht. apply sortsBefore_spec in E.
      destruct Ht as [Hle Hc]. destruct E as [Hlt | [Heq Hlt]].
      * split; [lra | intros Eq; lra].
      * split; [lra |]. intros Eq.
        assert (E' : (basePriority t == basePriority b)%Q) by lra.
        specialize (Hc E'). lia.
    + destruct (IH b0) as (b & Hb & Hin & Hmax). exists b. split; [exact Hb |].
      split; [destruct Hin; auto |].
      intros x [-> | [-> | Hx]]; [apply Hmax; auto | | apply Hmax; auto].
      apply sortsBefore_false.
      assert (Hb0 : sortsBefore b0 b = false) by (apply Hmax; auto).
      apply sortsBefore_false in Hb0. apply sortsBefore_false in E.
      destruct Hb0 as [Hle Hc]. destruct E as [Hle' Hc'].
      split; [lra |]. intros Eq.
      assert (E1 : (basePriority x == basePriority b0)%Q) by lra.
      assert (E2 : (basePriority b0 == basePriority b)%Q) by lra.
      specialize (Hc E2). specialize (Hc' E1). lia.
Qed.

Lemma pending_rows_In (s : State) (t : Transaction) :
  In t (List.filter (fun t => isPending (status t))
          (List.map snd (map_to_list (transactions s)))) <->
  (exists k, transactions s !! k = Some t) /\ isPending (status t) = true.
Proof.
  rewrite filter_In, in_map_iff. split.
  - intros [[[k t'] [E Hin]] Hp]. simpl in E. subst t'. split; [| exact Hp].
    exists k. apply elem_of_map_to_list. apply list_elem_of_In. exact Hin.
  - intros [[k Hk] Hp]. split; [| exact Hp]. exists (k, t). split; [reflexivity |].
    apply list_elem_of_In. apply elem_of_map_to_list. exact Hk.
Qed.

Lemma findFirstPending_spec (s : State) :
  (findFirstPending s).2 = s /\
  (((findFirstPending s).1 = Returned None /\
    forall k t, transactions s !! k = Some t -> isPending (status t) = false) \/
   exists t,
     (findFirstPending s).1 = Returned (Some t) /\
     (exists k, transactions s !! k = Some t) /\ isPending (status t) = true /\
     forall k' t', transactions s !! k' = Some t' -> isPending (status t') = true ->
       (basePriority t' <= basePriority t)%Q /\
       ((basePriority t' == basePriority t)%Q -> createdAt t <= createdAt t')).
Proof.
  split; [reflexivity |]. unfold findFirstPending. simpl.
  pose proof (pending_rows_In s) as Hrows.
  destruct (List.filter _ _) as [| t0 l] eqn:El.
  - left. split; [reflexivity |]. intros k t Hk.
    destruct (isPending (status t)) eqn:Hp; [| reflexivity].
    exfalso. apply (proj2 (Hrows t)). split; [exists k; exact Hk | exact Hp].
  - right. simpl. destruct (fold_pickFirst_some l t0) as (b & Hb & Hin & Hmax).
    exists b. split; [now rewrite Hb |].
    assert (Hbin : In b (t0 :: l)) by (destruct Hin as [-> | Hin]; [left | right]; auto).
    apply Hrows in Hbin. destruct Hbin as [Hk Hp]. split; [exact Hk |]. split; [exact Hp |].
    intros k' t' Hk' Hp'.
    assert (Hin' : In t' (t0 :: l)) by (apply Hrows; split; [exists k'; exact Hk' | exact Hp']).
    assert (Hs : sortsBefore t' b = false).
    { apply Hmax. destruct Hin' as [<- | Hin']; auto. }
    apply sortsBefore_false in Hs. exact Hs.
Qed.

(** X29.  [processNext] selects by the stored base priority alone.  With no
    QUEUED, PENDING_MANUAL or RESERVED transaction it reports no success and
    changes nothing.  Otherwise it runs [completeManual] on a transaction in
    one of these states whose base priority is the highest among them, and
    which is the earliest created of those with that base priority; neither
    the waiting time nor the rank in the Redis priority queue plays a
    part. *)
Theorem processNext_selects_by_base_priority :
  forall (cfg : Config) (now : Z) (s : State),
    ((forall k t, transactions s !! k = Some t -> isPending (status t) = false) /\
     processNext cfg now s = (Returned (mkNextResult false None), s)) \/
    exists t,
      (exists k, transactions s !! k = Some t) /\ isPending (status t) = true /\
      (forall k' t', transactions s !! k' = Some t' -> isPending (status t') = true ->
         (basePriority t' <= basePriority t)%Q /\
         ((basePriority t' == basePriority t)%Q -> createdAt t <= createdAt t')) /\
      (processNext cfg now s).2 = (TransactionService.completeManual (tx_id t) cfg now s).2 /\
      (forall completed,
         (TransactionService.completeManual (tx_id t) cfg now s).1 = Returned completed ->
         (processNext cfg now s).1 = Returned (mkNextResult completed (Some (tx_id t)))) /\
      (forall msg,
         (TransactionService.completeManual (tx_id t) cfg now s).1 = Thrown msg ->
         (processNext cfg now s).1 = Thrown msg).
Proof.
  intros cfg now s.
  destruct (findFirstPending_spec s) as [Hs [[Hnone Hall] | (t & Hsome & Hk & Hp & Hmax)]].
  - left. split; [exact Hall |]. unfold processNext, bind.
    destruct (findFirstPending s) as [o s0]. simpl in *. subst. reflexivity.
  - right. exists t. split; [exact Hk |]. split; [exact Hp |]. split; [exact Hmax |].
    unfold processNext, bind.
    destruct (findFirstPending s) as [o s0]. simpl in *. subst.
    destruct (TransactionService.completeManual (tx_id t) cfg now s) as [[c | m] s1]; simpl.
    + split; [reflexivity |]. split; [intros ? [= <-]; reflexivity | discriminate].
    + split; [reflexivity |]. split; [discriminate | intros ? [= <-]; reflexivity].
Qed.

End ProcessNext.
